(** * BERT for sequence classification: the notebook's inference loop

    The notebook loads a fine-tuned classifier (config, tokenizer, model) and
    runs one loop over five AG-news records:

      for d in ex_input:
          art = d['description'].numpy().decode('utf-8')
          labs = list(config.id2label.values())
          actual_class = labs[d['label'].numpy()]
          inp = tokenizer(art, return_tensors='pt')
          with torch.no_grad():
              out = torch.softmax(model( **inp).logits, dim = -1)
          class_ind = np.argmax(out[0])
          predicted_class = labs[class_ind]
          output_dict = {k:v for k, v in zip(config.id2label.values(), out[0])}
          print('Article: ...'.format(art, actual_class, output_dict))

    The loop is embedded statement by statement.  Tensors hold exact real
    numbers: the rounding of float32 is outside the model, so nothing is
    stated about the values of the probabilities.  The theorems read only
    the shape of a probability row and the order of its entries, and the
    concrete runs are on scores that float32 keeps apart.  The transformer's
    forward pass and the tokenizer's sub-word segmentation are assets that are
    not part of the notebook and are taken as parameters. *)

From Stdlib Require Import Reals Lra Lia String Ascii ZArith Bool NArith List.
From Stdlib Require Import Permutation.
Import ListNotations.

Set Implicit Arguments.

(* ===================================================================== *)
(** ** Python values the loop manipulates *)
(* ===================================================================== *)

Module Py.

(** The exceptions the statements of the loop can raise. *)
Inductive exn : Type :=
| UnicodeDecodeError   (* bytes.decode('utf-8') on ill-formed bytes *)
| IndexError           (* list or tensor index out of range *)
| ValueError           (* np.argmax of an empty sequence *)
| RuntimeError.        (* raised inside the model's forward pass *)

Inductive result (A : Type) : Type :=
| Ok (a : A)
| Raise (e : exn).
Arguments Ok {A} a.
Arguments Raise {A} e.

(** [l[i]] on a Python list: a negative index counts from the end, an index
    outside [-len, len) raises IndexError. *)
Definition getitem {A} (l : list A) (i : Z) : result A :=
  let n := Z.of_nat (length l) in
  let j := if (i <? 0)%Z then (n + i)%Z else i in
  if ((0 <=? j) && (j <? n))%Z%bool
  then match nth_error l (Z.to_nat j) with
       | Some a => Ok a
       | None => Raise IndexError
       end
  else Raise IndexError.

(** [zip(xs, ys)] stops at the end of the shorter argument. *)
Fixpoint zip {A B} (xs : list A) (ys : list B) : list (A * B) :=
  match xs, ys with
  | x :: xs', y :: ys' => (x, y) :: zip xs' ys'
  | _, _ => []
  end.

(** A dict keeps its keys in insertion order; storing under a key that is
    already present replaces the value and leaves the key where it is. *)
Definition dict (V : Type) : Type := list (string * V).

Fixpoint setitem {V} (d : dict V) (k : string) (v : V) : dict V :=
  match d with
  | [] => [(k, v)]
  | (k', v') :: d' =>
      if string_dec k' k then (k', v) :: d' else (k', v') :: setitem d' k v
  end.

Definition keys {V} (d : dict V) : list string := map fst d.
Definition values {K V} (d : list (K * V)) : list V := map snd d.

Fixpoint lookup {V} (d : list (Z * V)) (k : Z) : option V :=
  match d with
  | [] => None
  | (k', v) :: d' => if (k' =? k)%Z then Some v else lookup d' k
  end.

(** [{k: v for k, v in pairs}]. *)
Definition store {V} (d : dict V) (kv : string * V) : dict V :=
  setitem d (fst kv) (snd kv).

Definition dict_comprehension {V} (pairs : list (string * V)) : dict V :=
  fold_left store pairs [].

End Py.
Import Py.

(* ===================================================================== *)
(** ** [bytes.decode('utf-8')] *)
(* ===================================================================== *)

Module Utf8.

Definition between (lo hi b : N) : bool := ((lo <=? b) && (b <=? hi))%N.
Definition cont (b : N) : bool := between 128 191 b.

(** Well-formed byte sequences of UTF-8 under the strict error handler: no
    overlong form, no surrogate, nothing above U+10FFFF. *)
Fixpoint well_formed (bs : list N) : bool :=
  match bs with
  | [] => true
  | b0 :: r0 =>
      if (b0 <? 128)%N then well_formed r0
      else if between 194 223 b0 then
        match r0 with
        | b1 :: r1 => cont b1 && well_formed r1
        | _ => false
        end
      else if between 224 239 b0 then
        match r0 with
        | b1 :: b2 :: r2 =>
            (if (b0 =? 224)%N then between 160 191 b1
             else if (b0 =? 237)%N then between 128 159 b1
             else cont b1)
            && cont b2 && well_formed r2
        | _ => false
        end
      else if between 240 244 b0 then
        match r0 with
        | b1 :: b2 :: b3 :: r3 =>
            (if (b0 =? 240)%N then between 144 191 b1
             else if (b0 =? 244)%N then between 128 143 b1
             else cont b1)
            && cont b2 && cont b3 && well_formed r3
        | _ => false
        end
      else false
  end.

Definition bytes_of (s : string) : list N :=
  map N_of_ascii (list_ascii_of_string s).

(** The decoded text is kept as its UTF-8 byte string. *)
Definition decode (raw : string) : result string :=
  if well_formed (bytes_of raw) then Ok raw else Raise UnicodeDecodeError.

End Utf8.

(* ===================================================================== *)
(** ** The tokenizer object *)
(* ===================================================================== *)

Module Tok.

(** What [AutoTokenizer.from_pretrained] loads and never changes: the
    sub-word segmentation with its vocabulary lookup, and the ids of the
    special tokens. *)
Record vocab : Type := {
  segment : string -> list Z;
  cls_token_id : Z;
  sep_token_id : Z;
  pad_token_id : Z;
  model_max_length : nat
}.

(** The part of the tokenizer a call rewrites: the truncation and padding
    set on the backend ([None]: switched off, [Some n]: to [n] positions). *)
Record backend : Type := {
  truncation : option nat;
  padding : option nat
}.

Record encoding : Type := {
  ids : list Z;
  type_ids : list Z;
  mask : list Z
}.

(** With [return_tensors='pt'] every field is a tensor of one row. *)
Record batch_encoding : Type := {
  input_ids : list (list Z);
  token_type_ids : list (list Z);
  attention_mask : list (list Z)
}.

(** Encoding of one text by the backend, as it is configured. *)
Definition encode (v : vocab) (b : backend) (text : string) : encoding :=
  let toks := segment v text in
  let toks := match truncation b with
              | Some n => firstn (n - 2) toks
              | None => toks
              end in
  let real := cls_token_id v :: toks ++ [sep_token_id v] in
  let n := length real in
  let fill := match padding b with Some m => m - n | None => 0 end in
  {| ids := real ++ repeat (pad_token_id v) fill;
     type_ids := repeat 0%Z (n + fill);
     mask := repeat 1%Z n ++ repeat 0%Z fill |}.

(** The arguments of a call that select truncation and padding. *)
Inductive padding_strategy : Type := DO_NOT_PAD | MAX_LENGTH.
Inductive truncation_strategy : Type := DO_NOT_TRUNCATE | LONGEST_FIRST.

Record arguments : Type := {
  padding_arg : padding_strategy;
  truncation_arg : truncation_strategy;
  max_length : option nat
}.

(** A call that passes neither [padding] nor [truncation] nor
    [max_length]. *)
Definition defaults : arguments :=
  {| padding_arg := DO_NOT_PAD;
     truncation_arg := DO_NOT_TRUNCATE;
     max_length := None |}.

(** The backend with truncation and padding switched off. *)
Definition switched_off : backend :=
  {| truncation := None; padding := None |}.

(** Every call first brings the backend in line with its arguments: a
    strategy that is not asked for is switched off if it is on, one that is
    asked for is set to the length of the call (the model's length when
    the call names none). *)
Definition set_truncation_and_padding
           (v : vocab) (a : arguments) (b : backend) : backend :=
  let limit := match max_length a with
               | Some n => n
               | None => model_max_length v
               end in
  {| truncation :=
       match truncation_arg a with
       | DO_NOT_TRUNCATE =>
           match truncation b with Some _ => None | None => truncation b end
       | LONGEST_FIRST => Some limit
       end;
     padding :=
       match padding_arg a with
       | DO_NOT_PAD =>
           match padding b with Some _ => None | None => padding b end
       | MAX_LENGTH => Some limit
       end |}.

(** [tokenizer(text, return_tensors='pt', ...)] *)
Definition call_with (v : vocab) (a : arguments) (text : string) (b : backend)
  : batch_encoding * backend :=
  let b' := set_truncation_and_padding v a b in
  let e := encode v b' text in
  ({| input_ids := [ids e];
      token_type_ids := [type_ids e];
      attention_mask := [mask e] |}, b').

(** [tokenizer(text, return_tensors='pt')], the call of the notebook. *)
Definition call (v : vocab) (text : string) (b : backend)
  : batch_encoding * backend :=
  call_with v defaults text b.

End Tok.

(* ===================================================================== *)
(** ** Tensors, [torch.softmax] and [np.argmax] *)
(* ===================================================================== *)

Module Torch.

Local Open Scope R_scope.

(** A tensor of rank two, row by row, and whether autograd tracks it.  The
    entries are exact reals, where the notebook's tensors hold float32. *)
Record tensor : Type := {
  data : list (list R);
  requires_grad : bool
}.

Definition sum (x : list R) : R := fold_right Rplus 0 x.

(** [torch.softmax] along one row, as the library documents it:
    Softmax(x_i) = exp(x_i) / sum_j exp(x_j), in exact arithmetic.  The
    float32 kernel rounds every step, so two scores that are close enough
    can get the same probability there and a probability can round to 0 or
    to 1; the theorems on the loop do not rest on the values. *)
Definition softmax_row (x : list R) : list R :=
  map (fun xi => exp xi / sum (map exp x)) x.

(** [torch.softmax(t, dim = -1)]: every row on its own. *)
Definition softmax (t : tensor) : tensor :=
  {| data := map softmax_row (data t);
     requires_grad := requires_grad t |}.

(** [np.argmax] walks the sequence once and moves to a later position only
    on a strictly larger entry. *)
Fixpoint argmax_scan (best : R) (best_i i : nat) (x : list R) : nat :=
  match x with
  | [] => best_i
  | a :: t =>
      if Rlt_dec best a
      then argmax_scan a i (S i) t
      else argmax_scan best best_i (S i) t
  end.

Definition argmax (x : list R) : result nat :=
  match x with
  | [] => Raise ValueError
  | a :: t => Ok (argmax_scan a 0 1 t)
  end.

(** What an arg-max with lowest index on ties is. *)
Definition first_max (x : list R) (i : nat) : Prop :=
  (i < length x)%nat
  /\ (forall j, (j < length x)%nat -> nth j x 0 <= nth i x 0)
  /\ (forall j, (j < i)%nat -> nth j x 0 < nth i x 0).

End Torch.

(* ===================================================================== *)
(** ** The objects of the notebook *)
(* ===================================================================== *)

(** [config.id2label]: a dict from class id to class name, in the order of
    the configuration file. *)
Record config : Type := { id2label : list (Z * string) }.

(** One element of [ex_input]. *)
Record example : Type := { description : string; label : Z }.

(** What one iteration prints. *)
Record report : Type := {
  article : string;
  actual : string;
  predictions : dict R
}.

(** The names an iteration binds after the forward pass. *)
Record prediction : Type := {
  out : Torch.tensor;
  class_ind : nat;
  predicted_class : string;
  output_dict : dict R
}.

Definition bind_result {A B} (r : result A) (k : A -> result B) : result B :=
  match r with
  | Ok a => k a
  | Raise e => Raise e
  end.

Declare Scope result_scope.
Delimit Scope result_scope with result.
Notation "x <- r ;; k" := (bind_result r (fun x => k))
  (at level 61, r at next level, right associativity) : result_scope.

(** The three statements after the [with] block, on [labs] and [out]. *)
Definition postprocess (labs : list string) (o : Torch.tensor)
  : result prediction :=
  (row <- getitem (Torch.data o) 0 ;;
   i <- Torch.argmax row ;;
   name <- getitem labs (Z.of_nat i) ;;
   Ok {| out := o;
         class_ind := i;
         predicted_class := name;
         output_dict := dict_comprehension (zip labs row) |})%result.

(** From the logits to the prediction: the softmax and the three statements
    above. *)
Definition finalize (cfg : config) (logits : Torch.tensor) : result prediction :=
  postprocess (values (id2label cfg)) (Torch.softmax logits).

(** No tensor of a result is tracked by autograd. *)
Definition untracked (r : result (list Torch.tensor)) : bool :=
  match r with
  | Ok ts => forallb (fun t => negb (Torch.requires_grad t)) ts
  | Raise _ => true
  end.

(** One logits vector as the tensor of one row the model returns. *)
Definition row_tensor (l : list R) (g : bool) : Torch.tensor :=
  {| Torch.data := [l]; Torch.requires_grad := g |}.

Section Notebook.

(** The assets behind [model]: the type of its weights, its forward pass
    (which draws dropout noise only when it is given a generator state, and
    may raise), and the global random generator. *)
Variables weights rng_state : Type.
Variable forward :
  weights -> option rng_state -> Tok.batch_encoding -> result (list (list R)).
Variable rng_advance : rng_state -> rng_state.

(** The globals bound by the loading cell. *)
Variable cfg : config.
Variable tk : Tok.vocab.

(** An [nn.Module]: parameters, their accumulated gradients, and the
    train/eval flag. *)
Record module : Type := {
  params : weights;
  grads : option weights;
  training : bool
}.

(** [from_pretrained] returns the model in evaluation mode. *)
Definition from_pretrained (w : weights) : module :=
  {| params := w; grads := None; training := false |}.

(** Everything a statement of the loop can read or change. *)
Record world : Type := {
  tok_backend : Tok.backend;
  grad_enabled : bool;
  rng : rng_state;
  net : module
}.

Definition with_backend (b : Tok.backend) (w : world) : world :=
  {| tok_backend := b; grad_enabled := grad_enabled w;
     rng := rng w; net := net w |}.
Definition with_grad (g : bool) (w : world) : world :=
  {| tok_backend := tok_backend w; grad_enabled := g;
     rng := rng w; net := net w |}.
Definition with_rng (r : rng_state) (w : world) : world :=
  {| tok_backend := tok_backend w; grad_enabled := grad_enabled w;
     rng := r; net := net w |}.

(** The state of the interpreter once the loading cell has run. *)
Definition loaded (b : Tok.backend) (seed : rng_state) (w : weights) : world :=
  {| tok_backend := b; grad_enabled := true; rng := seed;
     net := from_pretrained w |}.

(** A statement: from a world to a value or an exception, the lines it
    printed, and the world it leaves. *)
Record outcome (A : Type) : Type := {
  res : result A;
  printed : list report;
  final : world
}.

Definition py (A : Type) : Type := world -> outcome A.

Definition lift {A} (r : result A) : py A :=
  fun w => {| res := r; printed := []; final := w |}.

Definition ret {A} (a : A) : py A := lift (Ok a).

Definition bind {A B} (m : py A) (k : A -> py B) : py B :=
  fun w =>
    let o := m w in
    match res o with
    | Ok a =>
        let o' := k a (final o) in
        {| res := res o'; printed := printed o ++ printed o';
           final := final o' |}
    | Raise e => {| res := Raise e; printed := printed o; final := final o |}
    end.

Definition print (r : report) : py unit :=
  fun w => {| res := Ok tt; printed := [r]; final := w |}.

(** [tokenizer(art, return_tensors='pt')]. *)
Definition tokenizer (art : string) : py Tok.batch_encoding :=
  fun w =>
    let (enc, b) := Tok.call tk art (tok_backend w) in
    {| res := Ok enc; printed := []; final := with_backend b w |}.

(** [model( **inp).logits]: in training mode the pass draws from the global
    generator; the result is tracked by autograd when gradients are
    enabled. *)
Definition model (inp : Tok.batch_encoding) : py Torch.tensor :=
  fun w =>
    let m := net w in
    let noise := if training m then Some (rng w) else None in
    let w' := if training m then with_rng (rng_advance (rng w)) w else w in
    {| res := match forward (params m) noise inp with
              | Ok l => Ok {| Torch.data := l;
                              Torch.requires_grad := grad_enabled w |}
              | Raise e => Raise e
              end;
       printed := [];
       final := w' |}.

(** [with torch.no_grad(): body]: gradients are switched off for the body
    and the previous mode is put back however the body ends. *)
Definition no_grad {A} (body : py A) : py A :=
  fun w =>
    let o := body (with_grad false w) in
    {| res := res o; printed := printed o;
       final := with_grad (grad_enabled w) (final o) |}.

Declare Scope py_scope.
Delimit Scope py_scope with py.
Notation "x <- m ;; k" := (bind m (fun x => k))
  (at level 61, m at next level, right associativity) : py_scope.

(** The [with] block of the loop: forward pass, then softmax. *)
Definition infer (inp : Tok.batch_encoding) : py Torch.tensor :=
  no_grad (logits <- model inp ;; ret (Torch.softmax logits))%py.

(** The statements from the tokenizer call to [output_dict]: what the
    loop binds for the article [art]. *)
Definition predict (labs : list string) (art : string) : py prediction :=
  (inp <- tokenizer art ;;
   o <- infer inp ;;
   lift (postprocess labs o))%py.

(** The body of the loop, for the record [d]. *)
Definition body (d : example) : py unit :=
  (art <- lift (Utf8.decode (description d)) ;;
   let labs := values (id2label cfg) in
   actual_class <- lift (getitem labs (label d)) ;;
   p <- predict labs art ;;
   print {| article := art;
            actual := actual_class;
            predictions := output_dict p |})%py.

(** [for d in ex_input: body]: an exception leaves the loop. *)
Fixpoint for_each (ex_input : list example) : py unit :=
  match ex_input with
  | [] => ret tt
  | d :: rest => (_ <- body d ;; for_each rest)%py
  end.

(** A run of forward passes under [no_grad], one after the other. *)
Fixpoint infer_all (inps : list Tok.batch_encoding) : py (list Torch.tensor) :=
  match inps with
  | [] => ret []
  | i :: rest =>
      (t <- infer i ;; ts <- infer_all rest ;; ret (t :: ts))%py
  end.

End Notebook.

(* ===================================================================== *)
(** ** Concrete objects to run the loop on *)
(* ===================================================================== *)

Module Demo.

(** The label schema the notebook's output shows. *)
Definition ag_news : config :=
  {| id2label := [(0%Z, "World"%string); (1%Z, "Sports"%string);
                  (2%Z, "Business"%string); (3%Z, "Sci/Tech"%string)] |}.

(** A schema in which two class ids carry one name. *)
Definition two_ids_one_name : config :=
  {| id2label := [(0%Z, "news"%string); (1%Z, "news"%string)] |}.

(** Number of blank-separated words of a text. *)
Fixpoint count_words (in_word : bool) (s : string) : nat :=
  match s with
  | EmptyString => 0
  | String c s' =>
      if Ascii.eqb c " "%char then count_words false s'
      else if in_word then count_words true s'
      else S (count_words true s')
  end.

(** A BERT vocabulary that knows no word: every word becomes [UNK] (100);
    [CLS] is 101, [SEP] is 102, [PAD] is 0 and the model reads 512
    positions. *)
Definition unk_vocab : Tok.vocab :=
  {| Tok.segment := fun s => repeat 100%Z (count_words false s);
     Tok.cls_token_id := 101%Z;
     Tok.sep_token_id := 102%Z;
     Tok.pad_token_id := 0%Z;
     Tok.model_max_length := 512 |}.

(** A text of [n] one-letter words. *)
Fixpoint many_words (n : nat) : string :=
  match n with
  | O => EmptyString
  | S n' => String "a"%char (String " "%char (many_words n'))
  end.

(** A forward pass of two classes that scores the second one higher. *)
Definition pair_forward (w : unit) (noise : option unit)
           (inp : Tok.batch_encoding) : result (list (list R)) :=
  Ok (map (fun _ => [0; 1]%R) (Tok.input_ids inp)).

Definition wire : example :=
  {| description := "By wire services."%string; label := 0%Z |}.

(** A forward pass without weights that scores the second class highest for
    every row. *)
Definition flat_forward (w : unit) (noise : option unit)
           (inp : Tok.batch_encoding) : result (list (list R)) :=
  Ok (map (fun _ => [0; 1; 0; 0]%R) (Tok.input_ids inp)).

(** What the loop binds for these scores under the AG-news schema. *)
Definition flat_prediction (g : bool) : prediction :=
  let p := Torch.softmax_row [0; 1; 0; 0]%R in
  {| out := row_tensor p g;
     class_ind := 1;
     predicted_class := "Sports";
     output_dict :=
       [("World"%string, nth 0 p 0%R);
        ("Sports"%string, nth 1 p 0%R);
        ("Business"%string, nth 2 p 0%R);
        ("Sci/Tech"%string, nth 3 p 0%R)] |}.

Definition flat_report (art : string) : report :=
  {| article := art;
     actual := "Sports";
     predictions := output_dict (flat_prediction false) |}.

Definition start : world unit unit :=
  loaded Tok.switched_off tt tt.

Definition sports : example :=
  {| description := "The Fighting Irish opened the season"%string;
     label := 1%Z |}.

(** A record whose label is no class id of the schema. *)
Definition mislabelled : example :=
  {| description := "By wire services."%string; label := 7%Z |}.

Definition run (ex_input : list example) : outcome unit unit unit :=
  for_each flat_forward (fun r => r) ag_news unk_vocab ex_input start.

End Demo.

(* ===================================================================== *)
(** ** The cell that picks the example records *)
(* ===================================================================== *)

(**   ds = tfds.load('ag_news_subset', data_dir= 'data/')
      ex_input = list(ds['train'].take(25))[-5:]
      for d in ex_input:
          print(d['description'].numpy().decode('utf-8'))
          print()                                                        *)

Module Loader.

(** [dataset.take(count)]: the first [count] elements, all of them when the
    dataset has fewer. *)
Definition take {A} (count : nat) (dataset : list A) : list A :=
  firstn count dataset.

(** [l[start:]] on a Python list: a negative start counts from the end and
    is clamped to the beginning, a start past the end gives the empty
    list. *)
Definition slice_from {A} (l : list A) (start : Z) : list A :=
  let n := Z.of_nat (length l) in
  let s := if (start <? 0)%Z then Z.max (n + start) 0 else Z.min start n in
  skipn (Z.to_nat s) l.

(** [ex_input = list(ds['train'].take(25))[-5:]]. *)
Definition ex_input (train : list example) : list example :=
  slice_from (take 25 train) (-5).

(** The loop of the cell: for every record the decoded text and an empty
    line; an exception leaves the loop with the lines printed so far. *)
Fixpoint show (records : list example) : list string * result unit :=
  match records with
  | [] => ([], Ok tt)
  | d :: rest =>
      match Utf8.decode (description d) with
      | Raise e => ([], Raise e)
      | Ok art =>
          let (lines, r) := show rest in
          (art :: EmptyString :: lines, r)
      end
  end.

End Loader.

(** [d.get(k)] on a dict: the value stored under [k], if any. *)
Fixpoint dict_get {V} (d : dict V) (k : string) : option V :=
  match d with
  | [] => None
  | (k', v) :: d' => if string_dec k' k then Some v else dict_get d' k
  end.

Module Samples.

(** A train split of [n] records; record [i] has [i + 1] words and the
    label [i mod 4]. *)
Fixpoint corpus_from (i n : nat) : list example :=
  match n with
  | O => []
  | S n' =>
      {| description := Demo.many_words (S i);
         label := Z.of_nat (i mod 4) |} :: corpus_from (S i) n'
  end.

Definition corpus (n : nat) : list example := corpus_from 0 n.

(** A record whose description is the single byte FF. *)
Definition garbled : example :=
  {| description := String (ascii_of_nat 255) EmptyString; label := 0%Z |}.

(** A record labelled with the last class, counted from the end. *)
Definition from_the_end : example :=
  {| description := "By wire services."%string; label := (-1)%Z |}.

(** A world whose model was put in training mode after loading. *)
Definition training_start : world unit unit :=
  {| tok_backend := {| Tok.truncation := Some 8%nat; Tok.padding := None |};
     grad_enabled := true;
     rng := tt;
     net := {| params := tt; grads := None; training := true |} |}.

End Samples.

(* ===================================================================== *)
(** ** Real-number facts about the softmax *)
(* ===================================================================== *)

Unset Implicit Arguments.

Section SoftmaxFacts.

Import Torch.
Local Open Scope R_scope.

Lemma sum_exp_pos (x : list R) : x <> [] -> 0 < sum (map exp x).
Proof.
  intros Hne. destruct x as [|a x]; [congruence|]. clear Hne.
  revert a. induction x as [|b x IH]; intros a; simpl.
  - pose proof (exp_pos a). lra.
  - pose proof (exp_pos a). specialize (IH b). simpl in IH. lra.
Qed.

Lemma softmax_row_scaled (x : list R) :
  softmax_row x = map (fun a => exp a * / sum (map exp x)) x.
Proof. reflexivity. Qed.

Lemma softmax_row_length (x : list R) : length (softmax_row x) = length x.
Proof. unfold softmax_row. apply length_map. Qed.

(** The scan is unchanged by a strictly increasing map of the entries. *)
Lemma argmax_scan_increasing (f : R -> R) :
  (forall a b, a < b <-> f a < f b) ->
  forall x best bi i,
    argmax_scan (f best) bi i (map f x) = argmax_scan best bi i x.
Proof.
  intros Hf. induction x as [|a x IH]; intros best bi i; simpl.
  - reflexivity.
  - destruct (Rlt_dec (f best) (f a)) as [H|H], (Rlt_dec best a) as [H'|H'].
    + apply IH.
    + exfalso. apply H'. apply (proj2 (Hf best a)). exact H.
    + exfalso. apply H. apply (proj1 (Hf best a)). exact H'.
    + apply IH.
Qed.

(** Over exact reals the scan of the probabilities ends where the scan of
    the scores ends; this is what evaluates the concrete runs. *)
Lemma argmax_softmax_row (x : list R) : argmax (softmax_row x) = argmax x.
Proof.
  destruct x as [|a x]; [reflexivity|].
  assert (Hpos : 0 < sum (map exp (a :: x))) by (apply sum_exp_pos; congruence).
  rewrite softmax_row_scaled. set (s := sum (map exp (a :: x))) in *.
  simpl. f_equal.
  apply (argmax_scan_increasing (fun b => exp b * / s)).
  intros u v. pose proof (Rinv_0_lt_compat s Hpos) as Hi. split; intros H.
  - apply Rmult_lt_compat_r; [exact Hi|]. now apply exp_increasing.
  - apply exp_lt_inv. apply Rmult_lt_reg_r with (r := / s); assumption.
Qed.

End SoftmaxFacts.

(* ===================================================================== *)
(** ** The scan of [np.argmax] finds the first maximum *)
(* ===================================================================== *)

Section ArgmaxFacts.

Import Torch.
Local Open Scope R_scope.

(** Either the scan keeps the position it started with, and nothing in [x]
    beats [best]; or it ends on position [k] of [x], whose entry beats
    [best], every entry before it, and is beaten by none. *)
Lemma argmax_scan_spec (x : list R) :
  forall best bi i,
    (argmax_scan best bi i x = bi /\ Forall (fun a => a <= best) x)
    \/ (exists k,
           argmax_scan best bi i x = (i + k)%nat
           /\ (k < length x)%nat
           /\ best < nth k x 0
           /\ (forall j, (j < k)%nat -> nth j x 0 < nth k x 0)
           /\ Forall (fun a => a <= nth k x 0) x).
Proof.
  induction x as [|a x IH]; intros best bi i; simpl.
  - left. split; [reflexivity | constructor].
  - destruct (Rlt_dec best a) as [Hlt|Hge].
    + right. destruct (IH a i (S i)) as [[Hr Hall] | [k [Hr [Hk [Hb [Hbefore Hall]]]]]].
      * exists 0%nat. rewrite Hr. repeat split.
        -- lia.
        -- lia.
        -- exact Hlt.
        -- intros j Hj. lia.
        -- constructor; [lra | exact Hall].
      * exists (S k). rewrite Hr. repeat split.
        -- lia.
        -- lia.
        -- simpl. lra.
        -- intros [|j] Hj; simpl; [exact Hb | apply Hbefore; lia].
        -- simpl. constructor; [lra | exact Hall].
    + destruct (IH best bi (S i)) as [[Hr Hall] | [k [Hr [Hk [Hb [Hbefore Hall]]]]]].
      * left. split; [exact Hr|]. constructor; [lra | exact Hall].
      * right. exists (S k). rewrite Hr. repeat split.
        -- lia.
        -- lia.
        -- exact Hb.
        -- intros [|j] Hj; simpl; [lra | apply Hbefore; lia].
        -- simpl. constructor; [lra | exact Hall].
Qed.

Lemma Forall_le_nth (x : list R) (m : R) :
  Forall (fun a => a <= m) x ->
  forall j, (j < length x)%nat -> nth j x 0 <= m.
Proof.
  intros Hall j Hj. rewrite Forall_forall in Hall.
  apply Hall. now apply nth_In.
Qed.

Lemma argmax_first_max (x : list R) (i : nat) :
  argmax x = Ok i -> first_max x i.
Proof.
  destruct x as [|a x]; simpl; [discriminate|].
  intros [= <-].
  destruct (argmax_scan_spec x a 0 1)
    as [[Hr Hall] | [k [Hr [Hk [Hb [Hbefore Hall]]]]]]; rewrite Hr.
  - repeat split.
    + simpl. lia.
    + intros [|j] Hj; simpl; [lra|].
      apply Forall_le_nth; [exact Hall | simpl in Hj; lia].
    + intros j Hj. lia.
  - repeat split.
    + simpl. lia.
    + intros [|j] Hj; simpl; [lra|].
      apply Forall_le_nth; [exact Hall | simpl in Hj; lia].
    + intros [|j] Hj; simpl; [exact Hb | apply Hbefore; lia].
Qed.

Lemma argmax_nonempty (x : list R) :
  x <> [] -> exists i, argmax x = Ok i /\ (i < length x)%nat.
Proof.
  intros Hne. destruct x as [|a x]; [congruence|].
  exists (argmax_scan a 0 1 x). split; [reflexivity|].
  apply (argmax_first_max (a :: x)). reflexivity.
Qed.

(** Two positions that are both a first maximum are one position. *)
Lemma first_max_unique (x : list R) (i j : nat) :
  first_max x i -> first_max x j -> i = j.
Proof.
  intros [Hi [Hmax_i Hfirst_i]] [Hj [Hmax_j Hfirst_j]].
  destruct (Nat.lt_trichotomy i j) as [Hlt | [Heq | Hgt]].
  - specialize (Hfirst_j i Hlt). specialize (Hmax_i j Hj). lra.
  - exact Heq.
  - specialize (Hfirst_i j Hgt). specialize (Hmax_j i Hi). lra.
Qed.

End ArgmaxFacts.

(** Decides the comparisons of a scan over numerals. *)
Ltac scan_numerals :=
  unfold Torch.argmax; simpl;
  repeat match goal with
         | |- context [Rlt_dec ?a ?b] =>
             destruct (Rlt_dec a b); try (exfalso; lra)
         end;
  try reflexivity.

(* ===================================================================== *)
(** ** Indexing, zip and dict facts *)
(* ===================================================================== *)

Section PythonFacts.

Lemma getitem_in_range {A} (l : list A) (i : nat) :
  (i < length l)%nat ->
  exists a, getitem l (Z.of_nat i) = Ok a /\ nth_error l i = Some a.
Proof.
  intros Hi. unfold getitem.
  replace (Z.of_nat i <? 0)%Z with false by (symmetry; apply Z.ltb_ge; lia).
  replace ((0 <=? Z.of_nat i) && (Z.of_nat i <? Z.of_nat (length l)))%Z%bool
    with true
    by (symmetry; apply andb_true_iff; split;
        [apply Z.leb_le | apply Z.ltb_lt]; lia).
  rewrite Nat2Z.id.
  destruct (nth_error l i) as [a|] eqn:E.
  - exists a. split; reflexivity.
  - apply nth_error_None in E. lia.
Qed.

Lemma getitem_past_end {A} (l : list A) (i : nat) :
  (length l <= i)%nat -> getitem l (Z.of_nat i) = Raise IndexError.
Proof.
  intros Hi. unfold getitem.
  replace (Z.of_nat i <? 0)%Z with false by (symmetry; apply Z.ltb_ge; lia).
  replace (Z.of_nat i <? Z.of_nat (length l))%Z with false
    by (symmetry; apply Z.ltb_ge; lia).
  rewrite andb_false_r. reflexivity.
Qed.

Lemma getitem_nonneg_nth_error {A} (l : list A) (i : Z) (a : A) :
  (0 <= i)%Z -> getitem l i = Ok a -> nth_error l (Z.to_nat i) = Some a.
Proof.
  intros Hi. unfold getitem.
  replace (i <? 0)%Z with false by (symmetry; apply Z.ltb_ge; lia).
  destruct ((0 <=? i) && (i <? Z.of_nat (length l)))%Z%bool; [|discriminate].
  destruct (nth_error l (Z.to_nat i)); [|discriminate].
  now intros [= ->].
Qed.

Lemma zip_length {A B} (xs : list A) (ys : list B) :
  length (zip xs ys) = Nat.min (length xs) (length ys).
Proof.
  revert ys. induction xs as [|x xs IH]; intros [|y ys]; simpl; auto.
Qed.

Lemma zip_keys {A B} (xs : list A) (ys : list B) :
  map fst (zip xs ys) = firstn (length ys) xs.
Proof.
  revert ys. induction xs as [|x xs IH]; intros [|y ys]; simpl; auto.
  now rewrite IH.
Qed.

Lemma setitem_keys {V} (d : dict V) (k : string) (v : V) :
  keys (setitem d k v) = if in_dec string_dec k (keys d)
                         then keys d else keys d ++ [k].
Proof.
  unfold keys. induction d as [|[k' v'] d IH]; simpl.
  - reflexivity.
  - destruct (string_dec k' k) as [->|Hne]; simpl.
    + reflexivity.
    + rewrite IH. destruct (in_dec string_dec k (map fst d)); reflexivity.
Qed.

Lemma setitem_fresh {V} (d : dict V) (k : string) (v : V) :
  ~ In k (keys d) -> setitem d k v = d ++ [(k, v)].
Proof.
  unfold keys. induction d as [|[k' v'] d IH]; simpl; intros Hnot.
  - reflexivity.
  - destruct (string_dec k' k) as [->|Hne].
    + exfalso. apply Hnot. now left.
    + rewrite IH; [reflexivity|]. intros Hin. apply Hnot. now right.
Qed.

Lemma fold_store_distinct {V} (pairs : list (string * V)) :
  forall d,
    NoDup (keys d ++ map fst pairs) ->
    fold_left store pairs d = d ++ pairs.
Proof.
  induction pairs as [|[k v] pairs IH]; intros d Hnd; simpl.
  - now rewrite app_nil_r.
  - unfold store at 2. simpl. simpl in Hnd.
    assert (Hfresh : ~ In k (keys d)).
    { apply NoDup_remove_2 in Hnd. intros Hin. apply Hnd.
      apply in_or_app. now left. }
    rewrite setitem_fresh by exact Hfresh.
    rewrite IH.
    + rewrite <- app_assoc. reflexivity.
    + unfold keys in *. rewrite map_app. simpl. rewrite <- app_assoc. exact Hnd.
Qed.

(** With pairwise distinct keys the comprehension is the list of pairs. *)
Lemma dict_comprehension_distinct {V} (pairs : list (string * V)) :
  NoDup (map fst pairs) -> dict_comprehension pairs = pairs.
Proof.
  intros Hnd. unfold dict_comprehension.
  now rewrite fold_store_distinct.
Qed.

Lemma fold_store_keys {V} (pairs : list (string * V)) :
  forall d,
    NoDup (keys d) ->
    NoDup (keys (fold_left store pairs d))
    /\ (forall k, In k (keys (fold_left store pairs d))
                  <-> In k (keys d) \/ In k (map fst pairs)).
Proof.
  induction pairs as [|[k v] pairs IH]; intros d Hnd; simpl.
  - split; [exact Hnd | intros k; tauto].
  - assert (Hstep : NoDup (keys (store d (k, v)))
                    /\ (forall k0, In k0 (keys (store d (k, v)))
                                   <-> In k0 (keys d) \/ k = k0)).
    { unfold store. simpl. rewrite setitem_keys.
      destruct (in_dec string_dec k (keys d)) as [Hin|Hnot].
      - split; [exact Hnd|]. intros k0. split; [tauto|].
        intros [H|<-]; assumption.
      - split.
        + apply NoDup_app_remove_l with (l := []). simpl.
          apply Permutation_NoDup with (l := k :: keys d).
          * apply Permutation_cons_append.
          * now constructor.
        + intros k0. rewrite in_app_iff. simpl. tauto. }
    destruct Hstep as [Hnd' Hin'].
    destruct (IH _ Hnd') as [Hnd'' Hin''].
    split; [exact Hnd''|].
    intros k0. rewrite Hin'', Hin'. tauto.
Qed.

(** In general the comprehension has one entry per distinct key. *)
Lemma dict_comprehension_length {V} (pairs : list (string * V)) :
  length (dict_comprehension pairs)
  = length (nodup string_dec (map fst pairs)).
Proof.
  unfold dict_comprehension.
  destruct (fold_store_keys pairs [] (NoDup_nil _)) as [Hnd Hin].
  rewrite <- (length_map fst (fold_left store pairs [])).
  apply Permutation_length, NoDup_Permutation.
  - exact Hnd.
  - apply NoDup_nodup.
  - intros k. rewrite nodup_In. unfold keys in Hin. rewrite Hin. simpl. tauto.
Qed.

End PythonFacts.

(* ===================================================================== *)
(** ** The postprocessing statements *)
(* ===================================================================== *)

Section FinalizeFacts.

Import Torch.
Local Open Scope R_scope.

Lemma values_length {K V} (d : list (K * V)) : length (values d) = length d.
Proof. unfold values. apply length_map. Qed.

Lemma softmax_row_tensor (L : list R) (g : bool) :
  softmax (row_tensor L g) = row_tensor (softmax_row L) g.
Proof. reflexivity. Qed.

(** [finalize] on one logits vector, statement by statement. *)
Lemma finalize_row_probabilities (cfg : config) (L : list R) (g : bool) :
  finalize cfg (row_tensor L g)
  = (i <- argmax (softmax_row L) ;;
     name <- getitem (values (id2label cfg)) (Z.of_nat i) ;;
     Ok {| out := row_tensor (softmax_row L) g;
           class_ind := i;
           predicted_class := name;
           output_dict :=
             dict_comprehension (zip (values (id2label cfg)) (softmax_row L)) |}
    )%result.
Proof. reflexivity. Qed.

(** The same over exact reals, where the arg-max is already the one of the
    scores: the form that evaluates the concrete runs. *)
Lemma finalize_row (cfg : config) (L : list R) (g : bool) :
  finalize cfg (row_tensor L g)
  = (i <- argmax L ;;
     name <- getitem (values (id2label cfg)) (Z.of_nat i) ;;
     Ok {| out := row_tensor (softmax_row L) g;
           class_ind := i;
           predicted_class := name;
           output_dict :=
             dict_comprehension (zip (values (id2label cfg)) (softmax_row L)) |}
    )%result.
Proof.
  unfold finalize. rewrite softmax_row_tensor.
  unfold postprocess. simpl getitem. simpl bind_result.
  rewrite argmax_softmax_row. reflexivity.
Qed.

Lemma finalize_ok_inv (cfg : config) (logits : tensor) (pred : prediction) :
  finalize cfg logits = Ok pred ->
  exists p name,
    getitem (data (softmax logits)) 0 = Ok p
    /\ argmax p = Ok (class_ind pred)
    /\ getitem (values (id2label cfg)) (Z.of_nat (class_ind pred)) = Ok name
    /\ pred = {| out := softmax logits;
                 class_ind := class_ind pred;
                 predicted_class := name;
                 output_dict :=
                   dict_comprehension (zip (values (id2label cfg)) p) |}.
Proof.
  unfold finalize, postprocess. intros H.
  destruct (getitem (data (softmax logits)) 0) as [p|e] eqn:Hrow;
    simpl in H; [|discriminate].
  destruct (argmax p) as [i|e] eqn:Harg; simpl in H; [|discriminate].
  destruct (getitem (values (id2label cfg)) (Z.of_nat i)) as [name|e] eqn:Hname;
    simpl in H; [|discriminate].
  injection H as <-. simpl. exists p, name. repeat split; assumption.
Qed.

Lemma finalize_in_range (cfg : config) (L : list R) (g : bool) (i : nat) :
  argmax (softmax_row L) = Ok i ->
  (i < length (id2label cfg))%nat ->
  exists pred, finalize cfg (row_tensor L g) = Ok pred
               /\ class_ind pred = i
               /\ out pred = row_tensor (softmax_row L) g.
Proof.
  intros Harg Hi. rewrite finalize_row_probabilities, Harg. simpl.
  destruct (getitem_in_range (values (id2label cfg)) i) as [name [Hget _]].
  { now rewrite values_length. }
  rewrite Hget. simpl. eexists. repeat split.
Qed.

Lemma finalize_past_schema (cfg : config) (L : list R) (g : bool) (i : nat) :
  argmax (softmax_row L) = Ok i ->
  (length (id2label cfg) <= i)%nat ->
  finalize cfg (row_tensor L g) = Raise IndexError.
Proof.
  intros Harg Hi. rewrite finalize_row_probabilities, Harg. simpl.
  rewrite getitem_past_end; [reflexivity|]. now rewrite values_length.
Qed.

Lemma finalize_fits (cfg : config) (L : list R) (g : bool) :
  (1 <= length L <= length (id2label cfg))%nat ->
  exists pred, finalize cfg (row_tensor L g) = Ok pred
               /\ out pred = row_tensor (softmax_row L) g.
Proof.
  intros [Hlo Hhi].
  destruct (argmax_nonempty (softmax_row L)) as [i [Harg Hi]].
  { intros Hnil. apply (f_equal (@length R)) in Hnil.
    rewrite softmax_row_length in Hnil. simpl in Hnil. lia. }
  rewrite softmax_row_length in Hi.
  destruct (finalize_in_range cfg L g i Harg) as [pred [Hok [_ Hout]]]; [lia|].
  exists pred. split; assumption.
Qed.

End FinalizeFacts.

(* ===================================================================== *)
(** ** The backend of the tokenizer *)
(* ===================================================================== *)

Section TokenizerFacts.

Variable v : Tok.vocab.

(** Whatever an earlier call left, the notebook's call switches truncation
    and padding off. *)
Lemma defaults_switch_off (b : Tok.backend) :
  Tok.set_truncation_and_padding v Tok.defaults b = Tok.switched_off.
Proof. destruct b as [[t|] [p|]]; reflexivity. Qed.

Lemma call_from_any_backend (text : string) (b : Tok.backend) :
  Tok.call v text b
  = (fst (Tok.call v text Tok.switched_off), Tok.switched_off).
Proof.
  unfold Tok.call, Tok.call_with. rewrite !defaults_switch_off. reflexivity.
Qed.

Lemma encode_switched_off (text : string) :
  Tok.encode v Tok.switched_off text
  = let real := Tok.cls_token_id v
                  :: Tok.segment v text ++ [Tok.sep_token_id v] in
    {| Tok.ids := real;
       Tok.type_ids := repeat 0%Z (length real);
       Tok.mask := repeat 1%Z (length real) |}.
Proof.
  unfold Tok.encode. simpl.
  rewrite !app_nil_r, Nat.add_0_r. reflexivity.
Qed.

(** A call that asks for truncation and for padding to the model's length
    returns that many positions. *)
Lemma padded_call_has_model_length (text : string) (b : Tok.backend) :
  (2 <= Tok.model_max_length v)%nat ->
  let a := {| Tok.padding_arg := Tok.MAX_LENGTH;
              Tok.truncation_arg := Tok.LONGEST_FIRST;
              Tok.max_length := None |} in
  let enc := fst (Tok.call_with v a text b) in
  map (@length Z) (Tok.input_ids enc) = [Tok.model_max_length v]
  /\ map (@length Z) (Tok.attention_mask enc) = [Tok.model_max_length v].
Proof.
  intros HL. cbv zeta. unfold Tok.call_with, Tok.encode. simpl.
  repeat (rewrite length_app || rewrite repeat_length
          || rewrite length_firstn).
  simpl. split; f_equal; lia.
Qed.

End TokenizerFacts.

(* ===================================================================== *)
(** ** The statements of the loop, run *)
(* ===================================================================== *)

Section LoopFacts.

Variables weights rng_state : Type.
Variable forward :
  weights -> option rng_state -> Tok.batch_encoding -> result (list (list R)).
Variable rng_advance : rng_state -> rng_state.
Variable cfg : config.
Variable tk : Tok.vocab.

Local Abbreviation World := (world weights rng_state).
Local Abbreviation Body := (body forward rng_advance cfg tk).
Local Abbreviation ForEach := (for_each forward rng_advance cfg tk).
Local Abbreviation Infer := (infer forward rng_advance).
Local Abbreviation InferAll := (infer_all forward rng_advance).
Local Abbreviation Predict := (predict forward rng_advance tk).

Lemma lift_run {A} (r : result A) (w : World) :
  lift r w = {| res := r; printed := []; final := w |}.
Proof. reflexivity. Qed.

(** Sequencing after a statement that prints nothing. *)
Lemma bind_silent {A B} (m : py weights rng_state A)
      (k : A -> py weights rng_state B) (w w' : World) (r : result A) :
  m w = {| res := r; printed := []; final := w' |} ->
  bind m k w = match r with
               | Ok a => k a w'
               | Raise e => {| res := Raise e; printed := []; final := w' |}
               end.
Proof.
  intros H. unfold bind. rewrite H. simpl.
  destruct r as [a|e]; [|reflexivity]. now destruct (k a w').
Qed.

Lemma tokenizer_run (art : string) (w : World) :
  tokenizer tk art w
  = {| res := Ok (fst (Tok.call tk art Tok.switched_off));
       printed := [];
       final := with_backend Tok.switched_off w |}.
Proof.
  unfold tokenizer. rewrite call_from_any_backend. reflexivity.
Qed.

(** The world a forward pass leaves: only a model in training mode moves
    the random generator. *)
Lemma infer_run (inp : Tok.batch_encoding) (w : World) :
  Infer inp w
  = {| res := match forward (params (net w))
                            (if training (net w) then Some (rng w) else None)
                            inp with
              | Ok l => Ok {| Torch.data := map Torch.softmax_row l;
                              Torch.requires_grad := false |}
              | Raise e => Raise e
              end;
       printed := [];
       final := if training (net w)
                then with_rng (rng_advance (rng w)) w else w |}.
Proof.
  destruct w as [b g r [p gr t]].
  unfold infer, no_grad, bind, model, ret, lift, with_grad, with_rng.
  simpl. destruct t; simpl;
    match goal with
    | |- context [forward ?a ?b ?c] => destruct (forward a b c)
    end; reflexivity.
Qed.

Lemma predict_run (labs : list string) (art : string) (w : World) :
  Predict labs art w
  = let inp := fst (Tok.call tk art Tok.switched_off) in
    let w1 := with_backend Tok.switched_off w in
    {| res := match forward (params (net w))
                            (if training (net w) then Some (rng w) else None)
                            inp with
              | Ok l => postprocess labs
                          {| Torch.data := map Torch.softmax_row l;
                             Torch.requires_grad := false |}
              | Raise e => Raise e
              end;
       printed := [];
       final := if training (net w)
                then with_rng (rng_advance (rng w)) w1 else w1 |}.
Proof.
  unfold predict.
  rewrite (bind_silent _ _ _ _ _ (tokenizer_run art w)).
  rewrite (bind_silent _ _ _ _ _ (infer_run _ _)).
  cbv zeta. simpl net. simpl rng.
  destruct (forward (params (net w))
                    (if training (net w) then Some (rng w) else None)
                    (fst (Tok.call tk art Tok.switched_off)))
    as [l|e]; destruct (training (net w)); reflexivity.
Qed.

(** In evaluation mode what the loop binds for an article depends on the
    module alone. *)
Lemma predict_reads_net_only (labs : list string) (art : string)
      (w w' : World) :
  net w = net w' ->
  training (net w) = false ->
  res (Predict labs art w) = res (Predict labs art w').
Proof.
  intros Hnet Heval. rewrite !predict_run. cbv zeta. cbn [res].
  rewrite <- Hnet, Heval. reflexivity.
Qed.

(** The body of the loop, statement by statement: where it can raise, what
    it prints and the world it leaves. *)
Lemma body_run (d : example) (w : World) :
  Body d w
  = let labs := values (id2label cfg) in
    match Utf8.decode (description d) with
    | Raise e => {| res := Raise e; printed := []; final := w |}
    | Ok art =>
    match getitem labs (label d) with
    | Raise e => {| res := Raise e; printed := []; final := w |}
    | Ok name =>
    let inp := fst (Tok.call tk art Tok.switched_off) in
    let w1 := with_backend Tok.switched_off w in
    let w2 := if training (net w)
              then with_rng (rng_advance (rng w)) w1 else w1 in
    match forward (params (net w))
                  (if training (net w) then Some (rng w) else None) inp with
    | Raise e => {| res := Raise e; printed := []; final := w2 |}
    | Ok l =>
    match postprocess labs {| Torch.data := map Torch.softmax_row l;
                              Torch.requires_grad := false |} with
    | Raise e => {| res := Raise e; printed := []; final := w2 |}
    | Ok p => {| res := Ok tt;
                 printed := [{| article := art; actual := name;
                                predictions := output_dict p |}];
                 final := w2 |}
    end end end end.
Proof.
  unfold body.
  rewrite (bind_silent _ _ _ _ _ (lift_run _ w)).
  destruct (Utf8.decode (description d)) as [art|e]; [|reflexivity].
  rewrite (bind_silent _ _ _ _ _ (lift_run _ w)).
  destruct (getitem (values (id2label cfg)) (label d)) as [name|e];
    [|reflexivity].
  rewrite (bind_silent _ _ _ _ _ (predict_run _ art w)).
  cbv zeta.
  destruct (forward (params (net w))
                    (if training (net w) then Some (rng w) else None)
                    (fst (Tok.call tk art Tok.switched_off)))
    as [l|e]; [|reflexivity].
  destruct (postprocess (values (id2label cfg))
              {| Torch.data := map Torch.softmax_row l;
                 Torch.requires_grad := false |}) as [p|e]; reflexivity.
Qed.

Ltac walk_body :=
  rewrite !body_run; cbv zeta;
  repeat match goal with
         | |- context [match ?r with Ok _ => _ | Raise _ => _ end] =>
             destruct r; simpl
         | |- context [if training ?m then _ else _] =>
             destruct (training m); simpl
         end.

(** No statement of the body touches the module. *)
Lemma body_keeps_net (d : example) (w : World) :
  net (final (Body d w)) = net w.
Proof. walk_body; reflexivity. Qed.

Lemma body_keeps_grad_mode (d : example) (w : World) :
  grad_enabled (final (Body d w)) = grad_enabled w.
Proof. walk_body; reflexivity. Qed.

(** An iteration that raises has printed nothing; one that ends has
    printed one report. *)
Lemma body_raise_silent (d : example) (w : World) (e : exn) :
  res (Body d w) = Raise e -> printed (Body d w) = [].
Proof. walk_body; intros H; (reflexivity || discriminate). Qed.

Lemma body_ok_one_report (d : example) (w : World) (u : unit) :
  res (Body d w) = Ok u -> length (printed (Body d w)) = 1%nat.
Proof. walk_body; intros H; (reflexivity || discriminate). Qed.

(** In evaluation mode the result and the report of an iteration depend on
    the module alone: not on the backend a previous call left, not on the
    generator, not on the gradient mode. *)
Lemma body_reads_net_only (d : example) (w w' : World) :
  net w = net w' ->
  training (net w) = false ->
  res (Body d w) = res (Body d w')
  /\ printed (Body d w) = printed (Body d w').
Proof.
  intros Hnet Heval. rewrite !body_run. cbv zeta.
  rewrite <- Hnet, Heval.
  repeat match goal with
         | |- context [match ?r with Ok _ => _ | Raise _ => _ end] =>
             destruct r; simpl
         end; split; reflexivity.
Qed.

Lemma for_each_cons (d : example) (rest : list example) (w : World) :
  ForEach (d :: rest) w
  = match res (Body d w) with
    | Ok _ =>
        let o := ForEach rest (final (Body d w)) in
        {| res := res o;
           printed := printed (Body d w) ++ printed o;
           final := final o |}
    | Raise e =>
        {| res := Raise e;
           printed := printed (Body d w);
           final := final (Body d w) |}
    end.
Proof. reflexivity. Qed.

Lemma for_each_keeps_net (ex_input : list example) :
  forall w : World, net (final (ForEach ex_input w)) = net w.
Proof.
  induction ex_input as [|d rest IH]; intros w.
  - reflexivity.
  - rewrite for_each_cons.
    destruct (res (Body d w)); simpl.
    + rewrite IH. apply body_keeps_net.
    + apply body_keeps_net.
Qed.

Lemma for_each_keeps_grad_mode (ex_input : list example) :
  forall w : World,
    grad_enabled (final (ForEach ex_input w)) = grad_enabled w.
Proof.
  induction ex_input as [|d rest IH]; intros w.
  - reflexivity.
  - rewrite for_each_cons.
    destruct (res (Body d w)); simpl.
    + rewrite IH. apply body_keeps_grad_mode.
    + apply body_keeps_grad_mode.
Qed.

Lemma for_each_reads_net_only (ex_input : list example) :
  forall w w' : World,
    net w = net w' ->
    training (net w) = false ->
    res (ForEach ex_input w) = res (ForEach ex_input w')
    /\ printed (ForEach ex_input w) = printed (ForEach ex_input w').
Proof.
  induction ex_input as [|d rest IH]; intros w w' Hnet Heval.
  - split; reflexivity.
  - rewrite !for_each_cons.
    destruct (body_reads_net_only d w w' Hnet Heval) as [Hres Hpr].
    rewrite <- Hres, <- Hpr.
    destruct (res (Body d w)) as [u|e]; simpl; [|split; reflexivity].
    destruct (IH (final (Body d w)) (final (Body d w'))) as [Hres' Hpr'].
    + rewrite !body_keeps_net. exact Hnet.
    + rewrite body_keeps_net. exact Heval.
    + rewrite Hres', Hpr'. split; reflexivity.
Qed.

(** A loop over [pre ++ post] is the loop over [pre] followed, when it
    ends, by the loop over [post]. *)
Lemma for_each_app (pre post : list example) :
  forall w : World,
    ForEach (pre ++ post) w
    = match res (ForEach pre w) with
      | Ok _ =>
          let o := ForEach post (final (ForEach pre w)) in
          {| res := res o;
             printed := printed (ForEach pre w) ++ printed o;
             final := final o |}
      | Raise e => ForEach pre w
      end.
Proof.
  induction pre as [|d pre IH]; intros w.
  - simpl. now destruct (ForEach post w).
  - rewrite <- app_comm_cons, !for_each_cons.
    destruct (res (Body d w)) as [u|e] eqn:Hd; simpl; [|reflexivity].
    rewrite IH.
    destruct (res (ForEach pre (final (Body d w)))) as [u'|e'] eqn:Hpre; simpl.
    + now rewrite app_assoc.
    + rewrite Hpre. reflexivity.
Qed.

Lemma for_each_ok_reports (ex_input : list example) :
  forall (w : World) (u : unit),
    res (ForEach ex_input w) = Ok u ->
    length (printed (ForEach ex_input w)) = length ex_input.
Proof.
  induction ex_input as [|d rest IH]; intros w u.
  - reflexivity.
  - rewrite for_each_cons.
    destruct (res (Body d w)) as [u'|e] eqn:Hd; simpl; [|discriminate].
    intros Hrest. rewrite length_app.
    rewrite (body_ok_one_report d w u' Hd), (IH _ _ Hrest). reflexivity.
Qed.

End LoopFacts.

(* ===================================================================== *)
(** ** The Python operations on small inputs *)
(* ===================================================================== *)

Section Checks.

Example getitem_from_the_end : getitem [10; 20; 30]%Z (-1) = Ok 30%Z.
Proof. reflexivity. Qed.

Example getitem_before_the_start :
  getitem [10; 20; 30]%Z (-4) = Raise IndexError.
Proof. reflexivity. Qed.

Example getitem_past_the_end : getitem [10; 20; 30]%Z 3 = Raise IndexError.
Proof. reflexivity. Qed.

Example zip_stops_at_the_shorter :
  zip ["a"; "b"; "c"]%string [1; 2]%Z = [("a"%string, 1%Z); ("b"%string, 2%Z)].
Proof. reflexivity. Qed.

Example comprehension_keeps_the_last_value :
  dict_comprehension [("a"%string, 1%Z); ("b"%string, 2%Z); ("a"%string, 3%Z)]
  = [("a"%string, 3%Z); ("b"%string, 2%Z)].
Proof. reflexivity. Qed.

(** "e" with an acute accent is the two bytes C3 A9. *)
Example decode_two_bytes :
  let s := String (ascii_of_nat 195) (String (ascii_of_nat 169) EmptyString) in
  Utf8.decode s = Ok s.
Proof. vm_compute. reflexivity. Qed.

(** A lone continuation byte, the overlong form C0 80 and the surrogate
    ED A0 80 are rejected. *)
Example decode_rejects_ill_formed :
  Utf8.decode (String (ascii_of_nat 169) EmptyString)
  = Raise UnicodeDecodeError
  /\ Utf8.decode (String (ascii_of_nat 192)
                          (String (ascii_of_nat 128) EmptyString))
     = Raise UnicodeDecodeError
  /\ Utf8.decode (String (ascii_of_nat 237)
                          (String (ascii_of_nat 160)
                                  (String (ascii_of_nat 128) EmptyString)))
     = Raise UnicodeDecodeError.
Proof. vm_compute. repeat split. Qed.

(** A call that asked for padding leaves the backend padding; the
    notebook's call switches it off again. *)
Example call_resets_padding :
  let padded := {| Tok.padding_arg := Tok.MAX_LENGTH;
                   Tok.truncation_arg := Tok.LONGEST_FIRST;
                   Tok.max_length := Some 6%nat |} in
  let b := snd (Tok.call_with Demo.unk_vocab padded "a b" Tok.switched_off) in
  Tok.input_ids (fst (Tok.call_with Demo.unk_vocab padded "a b" Tok.switched_off))
  = [[101; 100; 100; 102; 0; 0]%Z]
  /\ Tok.padding b = Some 6%nat
  /\ Tok.input_ids (fst (Tok.call Demo.unk_vocab "a b" b))
     = [[101; 100; 100; 102]%Z]
  /\ snd (Tok.call Demo.unk_vocab "a b" b) = Tok.switched_off.
Proof. vm_compute. repeat split. Qed.

End Checks.

(* ===================================================================== *)
(** ** The loop on the concrete objects *)
(* ===================================================================== *)

Section DemoFacts.

Import Torch.
Local Open Scope R_scope.

Lemma demo_argmax : argmax [0; 1; 0; 0] = Ok 1%nat.
Proof. scan_numerals. Qed.

Lemma demo_argmax_tie : argmax [1; 2; 2] = Ok 1%nat.
Proof. scan_numerals. Qed.

Lemma demo_argmax_short : argmax [1; 2; 3] = Ok 2%nat.
Proof. scan_numerals. Qed.

Lemma demo_argmax_long : argmax [0; 0; 0; 0; 1] = Ok 4%nat.
Proof. scan_numerals. Qed.

Lemma demo_argmax_pair : argmax [0; 1] = Ok 1%nat.
Proof. scan_numerals. Qed.

Lemma demo_finalize (g : bool) :
  finalize Demo.ag_news (row_tensor [0; 1; 0; 0] g) = Ok (Demo.flat_prediction g).
Proof. rewrite finalize_row, demo_argmax. reflexivity. Qed.

End DemoFacts.

(* ===================================================================== *)
(** ** The postprocessor *)
(* ===================================================================== *)

Section Postprocessor.

Import Torch.
Local Open Scope R_scope.

(** C3.  The [class_ind] of every prediction is an arg-max position of its
    probability vector, and the lowest such position: the entry there is
    at least every entry and strictly above every earlier one. *)
Theorem predicted_label_is_first_max
        (cfg : config) (logits : tensor) (pred : prediction) :
  finalize cfg logits = Ok pred ->
  exists p,
    getitem (data (out pred)) 0 = Ok p
    /\ first_max p (class_ind pred)
    /\ (forall i, first_max p i -> i = class_ind pred).
Proof.
  intros Hok.
  destruct (finalize_ok_inv _ _ _ Hok) as [p [name [Hrow [Harg [_ Heq]]]]].
  exists p. rewrite Heq. simpl.
  pose proof (argmax_first_max p _ Harg) as Hfm.
  repeat split; try apply Hfm; [exact Hrow|].
  intros i Hi. exact (first_max_unique p _ _ Hi Hfm).
Qed.

Lemma predicted_label_is_first_max_witness :
  exists p,
    getitem (data (out (Demo.flat_prediction false))) 0 = Ok p
    /\ first_max p (class_ind (Demo.flat_prediction false))
    /\ (forall i, first_max p i -> i = class_ind (Demo.flat_prediction false)).
Proof.
  apply (predicted_label_is_first_max
           Demo.ag_news (row_tensor [0; 1; 0; 0] false)).
  apply demo_finalize.
Defined.

(** C8, as the code has it.  [finalize] compares no lengths.  On the empty
    vector [np.argmax] raises ValueError; on any other vector the call
    returns exactly when the arg-max position of the probabilities is a
    position of the schema, which covers every length from 1 to C, and
    raises IndexError from [labs[class_ind]] otherwise. *)
Theorem finalize_without_length_check (cfg : config) (L : list R) (g : bool) :
  (L = [] -> finalize cfg (row_tensor L g) = Raise ValueError)
  /\ (forall i,
         argmax (softmax_row L) = Ok i ->
         ((i < length (id2label cfg))%nat ->
          exists pred, finalize cfg (row_tensor L g) = Ok pred
                       /\ class_ind pred = i)
         /\ ((length (id2label cfg) <= i)%nat ->
             finalize cfg (row_tensor L g) = Raise IndexError))
  /\ ((1 <= length L <= length (id2label cfg))%nat ->
      exists pred, finalize cfg (row_tensor L g) = Ok pred).
Proof.
  split; [|split].
  - intros ->. reflexivity.
  - intros i Harg. split; intros Hi.
    + destruct (finalize_in_range cfg L g i Harg Hi) as [pred [Hok [Hc _]]].
      exists pred. split; assumption.
    + exact (finalize_past_schema cfg L g i Harg Hi).
  - intros Hfit. destruct (finalize_fits cfg L g Hfit) as [pred [Hok _]].
    exists pred. exact Hok.
Qed.

Lemma finalize_without_length_check_witness :
  finalize Demo.ag_news (row_tensor [] true) = Raise ValueError
  /\ finalize Demo.ag_news (row_tensor [0; 0; 0; 0; 1] true) = Raise IndexError
  /\ exists pred, finalize Demo.ag_news (row_tensor [0; 0] true) = Ok pred.
Proof.
  split; [|split].
  - apply (finalize_without_length_check Demo.ag_news [] true). reflexivity.
  - apply (proj1 (proj2 (finalize_without_length_check
                           Demo.ag_news [0; 0; 0; 0; 1] true)) 4%nat).
    + rewrite argmax_softmax_row. exact demo_argmax_long.
    + simpl. lia.
  - apply (finalize_without_length_check Demo.ag_news [0; 0] true).
    simpl. lia.
Defined.

(** C8, counterexample.  A logits vector of three entries under the schema
    of four classes: [finalize] returns a prediction, no error is
    signalled. *)
Lemma finalize_accepts_short_logits :
  length [1; 2; 3] <> length (id2label Demo.ag_news)
  /\ exists pred,
       finalize Demo.ag_news (row_tensor [1; 2; 3] false) = Ok pred
       /\ predicted_class pred = "Business"%string
       /\ length (output_dict pred) = 3%nat.
Proof.
  split; [simpl; lia|].
  rewrite finalize_row, demo_argmax_short. simpl.
  eexists. split; [reflexivity|]. split; reflexivity.
Qed.

End Postprocessor.

(* ===================================================================== *)
(** ** The tokenizer call *)
(* ===================================================================== *)

Section Preprocessor.

(** C4, as the code has it.  The call passes neither [padding] nor
    [truncation]: whatever the backend was set to before, the token ids
    are [CLS], every token of the text, [SEP], and the attention mask is
    all ones; both have as many positions as the text has tokens, plus
    two.  Nothing is cut at the model's length and nothing is filled up
    to it. *)
Theorem tokenizer_keeps_every_token
        (tk : Tok.vocab) (text : string) (b : Tok.backend) :
  let enc := fst (Tok.call tk text b) in
  let n := length (Tok.segment tk text) in
  Tok.input_ids enc
  = [Tok.cls_token_id tk :: Tok.segment tk text ++ [Tok.sep_token_id tk]]
  /\ Tok.attention_mask enc = [repeat 1%Z (n + 2)]
  /\ Tok.token_type_ids enc = [repeat 0%Z (n + 2)]
  /\ map (@length Z) (Tok.input_ids enc) = [(n + 2)%nat]
  /\ map (@length Z) (Tok.attention_mask enc) = [(n + 2)%nat].
Proof.
  cbv zeta. unfold Tok.call, Tok.call_with.
  rewrite defaults_switch_off, encode_switched_off. cbv zeta.
  cbn [fst Tok.input_ids Tok.attention_mask Tok.token_type_ids
       Tok.ids Tok.mask Tok.type_ids map].
  rewrite repeat_length. cbn [length]. rewrite length_app. cbn [length].
  replace (S (length (Tok.segment tk text) + 1))
    with (length (Tok.segment tk text) + 2)%nat by lia.
  repeat split.
Qed.

(** C4, counterexample.  With [CLS] = 101, [SEP] = 102 and a model length
    of 512, the empty text is encoded in two positions and a text of 600
    words in 602. *)
Lemma tokenizer_length_varies :
  let short := fst (Tok.call Demo.unk_vocab "" Tok.switched_off) in
  let long := fst (Tok.call Demo.unk_vocab (Demo.many_words 600)
                            Tok.switched_off) in
  Tok.model_max_length Demo.unk_vocab = 512%nat
  /\ Tok.input_ids short = [[101; 102]%Z]
  /\ Tok.attention_mask short = [[1; 1]%Z]
  /\ map (@length Z) (Tok.input_ids long) = [602%nat]
  /\ map (@length Z) (Tok.attention_mask long) = [602%nat]
  /\ forallb (forallb (Z.eqb 1)) (Tok.attention_mask long) = true.
Proof. vm_compute. repeat split. Qed.

(** C5.  The call is deterministic: its result does not depend on the
    state an earlier call left in the tokenizer, and a second call on the
    same text, made on the tokenizer as the first call left it, returns
    the same token ids and the same mask. *)
Theorem tokenizer_deterministic
        (tk : Tok.vocab) (text : string) (b b' : Tok.backend) :
  let first := Tok.call tk text b in
  let second := Tok.call tk text (snd first) in
  fst second = fst first
  /\ Tok.input_ids (fst second) = Tok.input_ids (fst first)
  /\ Tok.attention_mask (fst second) = Tok.attention_mask (fst first)
  /\ fst (Tok.call tk text b') = fst first
  /\ snd second = snd first.
Proof.
  cbv zeta.
  rewrite (call_from_any_backend tk text (snd (Tok.call tk text b))).
  rewrite (call_from_any_backend tk text b), (call_from_any_backend tk text b').
  repeat split.
Qed.

End Preprocessor.

(* ===================================================================== *)
(** ** The inference loop *)
(* ===================================================================== *)

Section Pipeline.

Variables weights rng_state : Type.
Variable forward :
  weights -> option rng_state -> Tok.batch_encoding -> result (list (list R)).
Variable rng_advance : rng_state -> rng_state.
Variable cfg : config.
Variable tk : Tok.vocab.

Local Abbreviation World := (world weights rng_state).
Local Abbreviation Body := (body forward rng_advance cfg tk).
Local Abbreviation ForEach := (for_each forward rng_advance cfg tk).
Local Abbreviation Infer := (infer forward rng_advance).
Local Abbreviation InferAll := (infer_all forward rng_advance).
Local Abbreviation Predict := (predict forward rng_advance tk).

Lemma infer_all_cons (i : Tok.batch_encoding)
      (rest : list Tok.batch_encoding) (w : World) :
  InferAll (i :: rest) w
  = match res (Infer i w) with
    | Ok t =>
        let o := InferAll rest (final (Infer i w)) in
        {| res := match res o with
                  | Ok ts => Ok (t :: ts)
                  | Raise e => Raise e
                  end;
           printed := printed o;
           final := final o |}
    | Raise e =>
        {| res := Raise e; printed := []; final := final (Infer i w) |}
    end.
Proof.
  change (InferAll (i :: rest) w)
    with (bind (Infer i)
               (fun t => bind (InferAll rest) (fun ts => ret (t :: ts))) w).
  rewrite (bind_silent _ _ _ _ _ _ _ (infer_run _ _ forward rng_advance i w)).
  rewrite infer_run. cbn [res final].
  match goal with
  | |- context [forward ?a ?b ?c] => destruct (forward a b c) as [l|e]
  end; [|reflexivity].
  unfold bind, ret, lift. simpl.
  match goal with
  | |- context [res ?o] => destruct (res o)
  end; simpl; rewrite ?app_nil_r; reflexivity.
Qed.

Lemma infer_all_frame (inps : list Tok.batch_encoding) :
  forall w : World,
    net (final (InferAll inps w)) = net w
    /\ grad_enabled (final (InferAll inps w)) = grad_enabled w
    /\ untracked (res (InferAll inps w)) = true.
Proof.
  induction inps as [|i rest IH]; intros w.
  - repeat split.
  - rewrite infer_all_cons, infer_run. simpl.
    match goal with
    | |- context [forward ?a ?b ?c] => destruct (forward a b c) as [l|e]
    end; simpl.
    + match goal with
      | |- context [InferAll rest ?w1] =>
          destruct (IH w1) as [Hnet [Hgrad Htr]]
      end.
      rewrite Hnet, Hgrad.
      repeat split; try (destruct (training (net w)); reflexivity).
      match goal with
      | |- context [res ?o] => destruct (res o)
      end; simpl; [exact Htr | reflexivity].
    + repeat split; destruct (training (net w)); reflexivity.
Qed.

Lemma NoDup_firstn {A} (n : nat) (l : list A) :
  NoDup l -> NoDup (firstn n l).
Proof.
  intros Hnd. revert n. induction Hnd as [|a l Hnot Hnd IH]; intros [|n]; simpl.
  - constructor.
  - constructor.
  - constructor.
  - constructor; [|apply IH].
    intros Hin. apply Hnot. rewrite <- (firstn_skipn n l).
    apply in_or_app. now left.
Qed.

(** When the keys of a dict are 0, 1, 2, ... in this order, the value at a
    position is the value under the key of that number. *)
Lemma lookup_in_order {V} (d : list (Z * V)) :
  forall (start k : nat) (v : V),
    map fst d = map Z.of_nat (seq start (length d)) ->
    nth_error (values d) k = Some v ->
    lookup d (Z.of_nat (start + k)) = Some v.
Proof.
  induction d as [|[k0 v0] d IH]; intros start k v Hkeys Hnth.
  - destruct k; discriminate.
  - simpl in Hkeys. injection Hkeys as Hk0 Hrest. subst k0.
    destruct k as [|k]; simpl in *.
    + injection Hnth as <-. rewrite Nat.add_0_r, Z.eqb_refl. reflexivity.
    + replace (Z.of_nat start =? Z.of_nat (start + S k))%Z with false
        by (symmetry; apply Z.eqb_neq; lia).
      replace (start + S k)%nat with (S start + k)%nat by lia.
      now apply IH.
Qed.

(** C6.  Running the loop a second time, on the interpreter as the first
    run left it, ends the same way and prints the same reports: the same
    articles, class names and probabilities, entry for entry.  What the
    loop binds for an article (probabilities, class index, class name,
    dictionary) is after the first run what it was right after loading. *)
Theorem rerun_prints_same_predictions
        (ex_input : list example)
        (b : Tok.backend) (seed : rng_state) (wts : weights) :
  let first := ForEach ex_input (loaded b seed wts) in
  let second := ForEach ex_input (final first) in
  res second = res first
  /\ printed second = printed first
  /\ (forall labs art,
         res (Predict labs art (final first))
         = res (Predict labs art (loaded b seed wts))).
Proof.
  cbv zeta.
  pose proof (for_each_keeps_net _ _ forward rng_advance cfg tk ex_input
                                 (loaded b seed wts)) as Hnet.
  destruct (for_each_reads_net_only
              _ _ forward rng_advance cfg tk ex_input
              (final (ForEach ex_input (loaded b seed wts)))
              (loaded b seed wts)) as [Hres Hpr].
  - exact Hnet.
  - rewrite Hnet. reflexivity.
  - repeat split; try assumption.
    intros labs art. apply predict_reads_net_only.
    + exact Hnet.
    + rewrite Hnet. reflexivity.
Qed.

(** C7.  A forward pass under [no_grad], and any run of them, leaves the
    module as it was: the same parameters, no gradient accumulated, the
    same mode; the gradient mode is put back, no result is tracked by
    autograd, and the result depends on the input and the loaded weights
    alone.  After any number of passes on a freshly loaded model the
    module is the loaded one; the whole loop leaves it untouched too. *)
Theorem classify_leaves_model_untouched
        (inps : list Tok.batch_encoding) (ex_input : list example)
        (inp : Tok.batch_encoding) (w : World)
        (b b' : Tok.backend) (seed seed' : rng_state) (wts : weights) :
  net (final (InferAll inps w)) = net w
  /\ grad_enabled (final (InferAll inps w)) = grad_enabled w
  /\ untracked (res (InferAll inps w)) = true
  /\ net (final (InferAll inps (loaded b seed wts))) = from_pretrained wts
  /\ final (InferAll inps (loaded b seed wts)) = loaded b seed wts
  /\ res (Infer inp (loaded b seed wts)) = res (Infer inp (loaded b' seed' wts))
  /\ net (final (ForEach ex_input w)) = net w.
Proof.
  destruct (infer_all_frame inps w) as [Hnet [Hgrad Htr]].
  repeat split; try assumption.
  - apply (infer_all_frame inps (loaded b seed wts)).
  - clear. induction inps as [|i rest IH]; [reflexivity|].
    rewrite infer_all_cons, infer_run. simpl.
    match goal with
    | |- context [forward ?a ?b ?c] => destruct (forward a b c) as [l|e]
    end; simpl; [exact IH | reflexivity].
  - rewrite !infer_run. reflexivity.
  - apply for_each_keeps_net.
Qed.

(** C9, as the code has it.  The loop has no handler.  When the body
    raises on a record, the exception leaves the loop: the reports of the
    records before it have been printed, one each; neither the failing
    record nor any record after it is reported; nothing is tried again. *)
Theorem exception_ends_the_loop
        (pre post : list example) (d : example) (w : World)
        (u : unit) (e : exn) :
  res (ForEach pre w) = Ok u ->
  res (Body d (final (ForEach pre w))) = Raise e ->
  let o := ForEach (pre ++ d :: post) w in
  res o = Raise e
  /\ printed o = printed (ForEach pre w)
  /\ length (printed o) = length pre
  /\ final o = final (Body d (final (ForEach pre w))).
Proof.
  intros Hpre Hd. cbv zeta.
  rewrite for_each_app, Hpre, for_each_cons, Hd. cbv zeta. cbn [res printed final].
  rewrite (body_raise_silent _ _ forward rng_advance cfg tk d _ e Hd), app_nil_r.
  repeat split.
  exact (for_each_ok_reports _ _ forward rng_advance cfg tk pre w u Hpre).
Qed.

(** C10, as the code has it.  For a record that is reported, the class
    name is the entry of [list(config.id2label.values())] at the
    position of the record's label, and the dictionary is built from the
    schema names paired position by position with the probabilities.
    With pairwise distinct names it is that list of pairs, min(C, length
    of the probabilities) entries in schema order; in general it has one
    entry per distinct name among them.  When the ids of the schema are
    0, 1, 2, ... in order, the name at the position of a non-negative
    label is the name of the class with that id. *)
Theorem report_follows_schema_positions
        (d : example) (w : World) (u : unit) :
  res (Body d w) = Ok u ->
  let labs := values (id2label cfg) in
  exists art name p,
    Utf8.decode (description d) = Ok art
    /\ getitem labs (label d) = Ok name
    /\ (exists l,
           forward (params (net w))
                   (if training (net w) then Some (rng w) else None)
                   (fst (Tok.call tk art Tok.switched_off)) = Ok l
           /\ getitem (map Torch.softmax_row l) 0 = Ok p)
    /\ printed (Body d w)
        = [{| article := art; actual := name;
              predictions := dict_comprehension (zip labs p) |}]
    /\ (NoDup labs ->
         dict_comprehension (zip labs p) = zip labs p
         /\ length (dict_comprehension (zip labs p))
             = Nat.min (length (id2label cfg)) (length p))
    /\ length (dict_comprehension (zip labs p))
        = length (nodup string_dec (firstn (length p) labs))
    /\ (map fst (id2label cfg)
         = map Z.of_nat (seq 0 (length (id2label cfg))) ->
         (0 <= label d)%Z ->
         lookup (id2label cfg) (label d) = Some name).
Proof.
  rewrite body_run. cbv zeta.
  destruct (Utf8.decode (description d)) as [art|e0]; [|discriminate].
  destruct (getitem (values (id2label cfg)) (label d)) as [name|e0] eqn:Hname;
    [|discriminate].
  destruct (forward (params (net w))
                    (if training (net w) then Some (rng w) else None)
                    (fst (Tok.call tk art Tok.switched_off)))
    as [l|e0] eqn:Hfwd; [|discriminate].
  destruct (postprocess (values (id2label cfg))
              {| Torch.data := map Torch.softmax_row l;
                 Torch.requires_grad := false |}) as [pr|e0] eqn:Hpost;
    [|discriminate].
  intros _.
  change (finalize cfg {| Torch.data := l; Torch.requires_grad := false |}
          = Ok pr) in Hpost.
  destruct (finalize_ok_inv _ _ _ Hpost) as [p [name' [Hrow [_ [_ Heq]]]]].
  simpl in Hrow.
  exists art, name, p. cbn [printed].
  assert (Hkeys : map fst (zip (values (id2label cfg)) p)
                  = firstn (length p) (values (id2label cfg)))
    by apply zip_keys.
  repeat split.
  - exists l. split; [exact Hfwd | exact Hrow].
  - rewrite Heq. reflexivity.
  - apply dict_comprehension_distinct. rewrite Hkeys.
    now apply NoDup_firstn.
  - rewrite dict_comprehension_distinct
      by (rewrite Hkeys; now apply NoDup_firstn).
    rewrite zip_length, values_length. reflexivity.
  - rewrite dict_comprehension_length, Hkeys. reflexivity.
  - intros Hids Hlabel.
    apply (lookup_in_order (id2label cfg) 0 (Z.to_nat (label d)) name) in Hids.
    + simpl in Hids. rewrite Z2Nat.id in Hids by exact Hlabel. exact Hids.
    + apply getitem_nonneg_nth_error; assumption.
Qed.

End Pipeline.

(* ===================================================================== *)
(** ** Runs of the loop on the concrete objects *)
(* ===================================================================== *)

Section Runs.

Import Torch.
Local Open Scope R_scope.

Local Abbreviation DemoBody :=
  (body Demo.flat_forward (fun r : unit => r) Demo.ag_news Demo.unk_vocab).

Lemma demo_decode_sports :
  Utf8.decode (description Demo.sports) = Ok (description Demo.sports).
Proof. vm_compute. reflexivity. Qed.

Lemma demo_decode_mislabelled :
  Utf8.decode (description Demo.mislabelled)
  = Ok (description Demo.mislabelled).
Proof. vm_compute. reflexivity. Qed.

Lemma flat_forward_one_row (noise : option unit) (text : string)
      (b : Tok.backend) :
  Demo.flat_forward tt noise (fst (Tok.call Demo.unk_vocab text b))
  = Ok [[0; 1; 0; 0]].
Proof. reflexivity. Qed.

Lemma demo_body_sports (w : world unit unit) :
  training (net w) = false ->
  DemoBody Demo.sports w
  = {| res := Ok tt;
       printed := [Demo.flat_report (description Demo.sports)];
       final := with_backend Tok.switched_off w |}.
Proof.
  intros Heval. rewrite body_run. cbv zeta.
  rewrite Heval, demo_decode_sports.
  change (getitem (values (id2label Demo.ag_news)) (label Demo.sports))
    with (Ok "Sports"%string : result string).
  cbv iota beta.
  destruct (params (net w)).
  rewrite flat_forward_one_row.
  change (postprocess (values (id2label Demo.ag_news))
            {| data := map softmax_row [[0; 1; 0; 0]];
               requires_grad := false |})
    with (finalize Demo.ag_news (row_tensor [0; 1; 0; 0] false)).
  rewrite demo_finalize. reflexivity.
Qed.

Lemma demo_body_mislabelled (w : world unit unit) :
  DemoBody Demo.mislabelled w
  = {| res := Raise IndexError; printed := []; final := w |}.
Proof.
  rewrite body_run. cbv zeta. rewrite demo_decode_mislabelled.
  reflexivity.
Qed.

Lemma demo_run_sports :
  Demo.run [Demo.sports]
  = {| res := Ok tt;
       printed := [Demo.flat_report (description Demo.sports)];
       final := Demo.start |}.
Proof.
  unfold Demo.run. rewrite for_each_cons.
  rewrite demo_body_sports by reflexivity. reflexivity.
Qed.

(** C9, counterexample.  A record whose label is no position of the schema
    comes first, a record that is classified when it is alone comes
    second: the loop ends with IndexError and reports neither. *)
Lemma later_record_not_processed :
  res (Demo.run [Demo.sports]) = Ok tt
  /\ printed (Demo.run [Demo.sports])
      = [Demo.flat_report (description Demo.sports)]
  /\ res (Demo.run [Demo.mislabelled; Demo.sports]) = Raise IndexError
  /\ printed (Demo.run [Demo.mislabelled; Demo.sports]) = [].
Proof.
  rewrite demo_run_sports. unfold Demo.run.
  rewrite for_each_cons, demo_body_mislabelled.
  repeat split.
Qed.

Lemma exception_ends_the_loop_witness :
  let o := Demo.run ([Demo.sports] ++ Demo.mislabelled :: [Demo.sports]) in
  res o = Raise IndexError
  /\ printed o = printed (Demo.run [Demo.sports])
  /\ length (printed o) = length [Demo.sports]
  /\ final o = final (DemoBody Demo.mislabelled
                               (final (Demo.run [Demo.sports]))).
Proof.
  apply (exception_ends_the_loop
           unit unit Demo.flat_forward (fun r => r) Demo.ag_news
           Demo.unk_vocab [Demo.sports] [Demo.sports] Demo.mislabelled
           Demo.start tt IndexError).
  - change (res (Demo.run [Demo.sports]) = Ok tt).
    rewrite demo_run_sports. reflexivity.
  - rewrite demo_body_mislabelled. reflexivity.
Defined.

Lemma report_follows_schema_positions_witness :
  let labs := values (id2label Demo.ag_news) in
  exists art name p,
    Utf8.decode (description Demo.sports) = Ok art
    /\ getitem labs (label Demo.sports) = Ok name
    /\ (exists l,
           Demo.flat_forward
             (params (net Demo.start))
             (if training (net Demo.start)
              then Some (rng Demo.start) else None)
             (fst (Tok.call Demo.unk_vocab art Tok.switched_off))
           = Ok l
           /\ getitem (map softmax_row l) 0 = Ok p)
    /\ printed (DemoBody Demo.sports Demo.start)
        = [{| article := art; actual := name;
              predictions := dict_comprehension (zip labs p) |}]
    /\ (NoDup labs ->
         dict_comprehension (zip labs p) = zip labs p
         /\ length (dict_comprehension (zip labs p))
             = Nat.min (length (id2label Demo.ag_news)) (length p))
    /\ length (dict_comprehension (zip labs p))
        = length (nodup string_dec (firstn (length p) labs))
    /\ (map fst (id2label Demo.ag_news)
         = map Z.of_nat (seq 0 (length (id2label Demo.ag_news))) ->
         (0 <= label Demo.sports)%Z ->
         lookup (id2label Demo.ag_news) (label Demo.sports) = Some name).
Proof.
  apply (report_follows_schema_positions
           unit unit Demo.flat_forward (fun r => r) Demo.ag_news
           Demo.unk_vocab Demo.sports Demo.start tt).
  rewrite demo_body_sports by reflexivity. reflexivity.
Defined.

(** C10, counterexample.  Under a schema of two class ids that carry one
    name, a reported record has a probability vector of two entries and
    a dictionary of one: the second probability has replaced the first
    under the shared name. *)
Lemma duplicate_name_merges_entries :
  let o := body Demo.pair_forward (fun r : unit => r)
                Demo.two_ids_one_name Demo.unk_vocab Demo.wire Demo.start in
  let p := softmax_row [0; 1] in
  res o = Ok tt
  /\ printed o = [{| article := description Demo.wire;
                     actual := "news";
                     predictions := [("news"%string, nth 1 p 0)] |}]
  /\ map (fun r => length (predictions r)) (printed o) = [1%nat]
  /\ Nat.min (length (id2label Demo.two_ids_one_name)) (length p) = 2%nat.
Proof.
  cbv zeta. rewrite body_run. cbv zeta.
  replace (Utf8.decode (description Demo.wire))
    with (Ok (description Demo.wire) : result string)
    by (vm_compute; reflexivity).
  change (getitem (values (id2label Demo.two_ids_one_name)) (label Demo.wire))
    with (Ok "news"%string : result string).
  cbv iota beta.
  change (training (net Demo.start)) with false. cbv iota.
  change (Demo.pair_forward (params (net Demo.start)) None
            (fst (Tok.call Demo.unk_vocab (description Demo.wire)
                           Tok.switched_off)))
    with (Ok [[0; 1]] : result (list (list R))).
  cbv iota beta.
  change (postprocess (values (id2label Demo.two_ids_one_name))
            {| data := map softmax_row [[0; 1]]; requires_grad := false |})
    with (finalize Demo.two_ids_one_name (row_tensor [0; 1] false)).
  rewrite finalize_row, demo_argmax_pair.
  repeat split.
Qed.

End Runs.

(* ===================================================================== *)
(** ** The example records and the loop that shows them *)
(* ===================================================================== *)

Section LoaderFacts.

Lemma slice_last_five {A} (l : list A) :
  Loader.slice_from l (-5) = skipn (length l - 5) l.
Proof.
  unfold Loader.slice_from.
  replace (-5 <? 0)%Z with true by reflexivity.
  f_equal. lia.
Qed.

Lemma ex_input_skipn (train : list example) :
  Loader.ex_input train
  = skipn (Nat.min 25 (length train) - 5) (firstn 25 train).
Proof.
  unfold Loader.ex_input, Loader.take.
  rewrite slice_last_five, length_firstn. reflexivity.
Qed.

(** X1.  The example records are a block of consecutive records of the
    train split, in the order of the split: at most five of them, the last
    ones among the first 25, with nothing lost or repeated around them. *)
Theorem ex_input_is_a_block (train : list example) :
  let n := length train in
  length (Loader.ex_input train) = Nat.min 5 n
  /\ train = firstn (Nat.min 25 n - 5) train
             ++ Loader.ex_input train
             ++ skipn 25 train.
Proof.
  cbv zeta. rewrite ex_input_skipn. split.
  - rewrite length_skipn, length_firstn. lia.
  - rewrite <- (firstn_skipn 25 train) at 1.
    rewrite <- (firstn_skipn (Nat.min 25 (length train) - 5) (firstn 25 train)) at 1.
    rewrite firstn_firstn, <- app_assoc.
    replace (Nat.min (Nat.min 25 (length train) - 5) 25)
      with (Nat.min 25 (length train) - 5)%nat by lia.
    reflexivity.
Qed.

(** X2.  On a train split of at least 25 records the example records are
    the five records at positions 20 to 24; on a split of at most five
    records they are the whole split. *)
Theorem ex_input_positions (train : list example) :
  ((25 <= length train)%nat ->
   Loader.ex_input train = firstn 5 (skipn 20 train))
  /\ ((length train <= 5)%nat -> Loader.ex_input train = train).
Proof.
  rewrite ex_input_skipn. split; intros Hn.
  - replace (Nat.min 25 (length train) - 5)%nat with 20%nat by lia.
    apply (skipn_firstn_comm 20 25 train).
  - replace (Nat.min 25 (length train) - 5)%nat with 0%nat by lia.
    change (skipn 0 (firstn 25 train)) with (firstn 25 train).
    apply firstn_all2. lia.
Qed.

Lemma ex_input_positions_witness :
  Loader.ex_input (Samples.corpus 30)
  = firstn 5 (skipn 20 (Samples.corpus 30))
  /\ Loader.ex_input (Samples.corpus 3) = Samples.corpus 3.
Proof.
  split.
  - apply (ex_input_positions (Samples.corpus 30)). vm_compute. lia.
  - apply (ex_input_positions (Samples.corpus 3)). vm_compute. lia.
Defined.

Lemma decode_cases (raw : string) :
  (Utf8.well_formed (Utf8.bytes_of raw) = true /\ Utf8.decode raw = Ok raw)
  \/ (Utf8.well_formed (Utf8.bytes_of raw) = false
      /\ Utf8.decode raw = Raise UnicodeDecodeError).
Proof.
  unfold Utf8.decode.
  destruct (Utf8.well_formed (Utf8.bytes_of raw)); [left | right];
    split; reflexivity.
Qed.

Lemma decode_ok_same (raw art : string) :
  Utf8.decode raw = Ok art -> art = raw.
Proof.
  unfold Utf8.decode.
  destruct (Utf8.well_formed (Utf8.bytes_of raw)); [|discriminate].
  now intros [= ->].
Qed.

Lemma show_well_formed (records : list example) :
  Forall (fun d => Utf8.well_formed (Utf8.bytes_of (description d)) = true)
         records ->
  Loader.show records
  = (flat_map (fun d => [description d; EmptyString]) records, Ok tt).
Proof.
  induction 1 as [|d rest Hd _ IH]; simpl.
  - reflexivity.
  - unfold Utf8.decode. rewrite Hd, IH. reflexivity.
Qed.

(** X3.  The loop that shows the records prints, for every record in
    order, its text and an empty line.  It ends normally when every
    description is well-formed UTF-8; at the first description that is not
    it raises UnicodeDecodeError, having printed the records before it
    and none after. *)
Theorem show_stops_at_first_ill_formed
        (pre post : list example) (d : example) :
  Forall (fun x => Utf8.well_formed (Utf8.bytes_of (description x)) = true)
         pre ->
  (Loader.show pre
   = (flat_map (fun x => [description x; EmptyString]) pre, Ok tt))
  /\ (Utf8.well_formed (Utf8.bytes_of (description d)) = false ->
      Loader.show (pre ++ d :: post)
      = (flat_map (fun x => [description x; EmptyString]) pre,
         Raise UnicodeDecodeError)).
Proof.
  intros Hpre. split; [now apply show_well_formed|].
  intros Hd. induction Hpre as [|x pre Hx _ IH]; simpl.
  - unfold Utf8.decode. rewrite Hd. reflexivity.
  - unfold Utf8.decode at 1. rewrite Hx, IH. reflexivity.
Qed.

Lemma show_stops_at_first_ill_formed_witness :
  Loader.show [Demo.sports]
  = (flat_map (fun x => [description x; EmptyString]) [Demo.sports], Ok tt)
  /\ Loader.show ([Demo.sports] ++ Samples.garbled :: [Demo.wire])
     = (flat_map (fun x => [description x; EmptyString]) [Demo.sports],
        Raise UnicodeDecodeError).
Proof.
  destruct (show_stops_at_first_ill_formed
              [Demo.sports] [Demo.wire] Samples.garbled) as [Hok Hbad].
  - repeat constructor.
  - split; [exact Hok|]. apply Hbad. vm_compute. reflexivity.
Defined.

End LoaderFacts.

(* ===================================================================== *)
(** ** Indexing, decoding and the dictionary, further *)
(* ===================================================================== *)

Section MorePythonFacts.

(** X5.  The dictionary of a comprehension has no key twice, and its keys
    are exactly the keys of the pairs it was built from. *)
Theorem comprehension_keys {V} (pairs : list (string * V)) :
  NoDup (keys (dict_comprehension pairs))
  /\ (forall k, In k (keys (dict_comprehension pairs))
                <-> In k (map fst pairs)).
Proof.
  unfold dict_comprehension.
  destruct (fold_store_keys pairs [] (NoDup_nil _)) as [Hnd Hin].
  split; [exact Hnd|]. intros k. rewrite Hin. simpl. tauto.
Qed.

Lemma get_setitem {V} (d : dict V) (k k' : string) (v : V) :
  dict_get (setitem d k v) k'
  = if string_dec k k' then Some v else dict_get d k'.
Proof.
  induction d as [|[k0 v0] d IH]; simpl.
  - reflexivity.
  - destruct (string_dec k0 k) as [->|Hne]; simpl.
    + destruct (string_dec k k'); reflexivity.
    + rewrite IH. destruct (string_dec k0 k') as [->|Hne'].
      * destruct (string_dec k k'); [congruence | reflexivity].
      * reflexivity.
Qed.

Lemma get_app {V} (d d' : dict V) (k : string) :
  dict_get (d ++ d') k
  = match dict_get d k with Some v => Some v | None => dict_get d' k end.
Proof.
  induction d as [|[k0 v0] d IH]; simpl.
  - reflexivity.
  - destruct (string_dec k0 k); [reflexivity | exact IH].
Qed.

Lemma get_fold_store {V} (pairs : list (string * V)) (k : string) :
  forall d,
    dict_get (fold_left store pairs d) k
    = match dict_get (rev pairs) k with
      | Some v => Some v
      | None => dict_get d k
      end.
Proof.
  induction pairs as [|[k0 v0] pairs IH]; intros d; simpl.
  - reflexivity.
  - rewrite IH, get_app. unfold store. simpl. rewrite get_setitem.
    destruct (dict_get (rev pairs) k); [reflexivity|].
    destruct (string_dec k0 k); reflexivity.
Qed.

(** X6.  Looking a key up in the dictionary of a comprehension gives the
    value of the last pair with that key, and nothing when no pair has
    it. *)
Theorem comprehension_last_value {V} (pairs : list (string * V)) (k : string) :
  dict_get (dict_comprehension pairs) k = dict_get (rev pairs) k.
Proof.
  unfold dict_comprehension. rewrite get_fold_store.
  destruct (dict_get (rev pairs) k); reflexivity.
Qed.

Lemma ascii_bytes_well_formed (bs : list N) :
  Forall (fun b => (b < 128)%N) bs -> Utf8.well_formed bs = true.
Proof.
  induction 1 as [|b bs Hb _ IH].
  - reflexivity.
  - cbn [Utf8.well_formed].
    apply N.ltb_lt in Hb. rewrite Hb. exact IH.
Qed.

(** X7.  A description made of ASCII bytes only is decoded without an
    exception, to the same text. *)
Theorem ascii_text_decodes (raw : string) :
  Forall (fun b => (b < 128)%N) (Utf8.bytes_of raw) ->
  Utf8.decode raw = Ok raw.
Proof.
  intros H. unfold Utf8.decode.
  now rewrite ascii_bytes_well_formed.
Qed.

Lemma ascii_text_decodes_witness :
  Utf8.decode (description Demo.sports) = Ok (description Demo.sports).
Proof.
  apply (ascii_text_decodes (description Demo.sports)).
  vm_compute. repeat constructor.
Defined.

End MorePythonFacts.

(* ===================================================================== *)
(** ** The probabilities, further *)
(* ===================================================================== *)

Section MoreSoftmaxFacts.

Import Torch.
Local Open Scope R_scope.

Lemma zip_In_nth {A B} (xs : list A) (ys : list B) (i : nat) (a : A) (b : B) :
  nth_error xs i = Some a -> nth_error ys i = Some b -> In (a, b) (zip xs ys).
Proof.
  revert ys i. induction xs as [|x xs IH]; intros [|y ys] [|i]; simpl;
    try discriminate.
  - intros [= ->] [= ->]. now left.
  - intros Ha Hb. right. exact (IH ys i Ha Hb).
Qed.

Lemma zip_In_right {A B} (xs : list A) (ys : list B) (a : A) (b : B) :
  In (a, b) (zip xs ys) -> In b ys.
Proof.
  revert ys. induction xs as [|x xs IH]; intros [|y ys]; simpl;
    try contradiction.
  intros [[= _ ->]|Hin]; [now left | right; exact (IH ys Hin)].
Qed.

Lemma get_of_distinct {V} (d : dict V) (k : string) (v : V) :
  NoDup (map fst d) -> In (k, v) d -> dict_get d k = Some v.
Proof.
  induction d as [|[k0 v0] d IH]; simpl; intros Hnd Hin; [contradiction|].
  apply NoDup_cons_iff in Hnd. destruct Hnd as [Hnot Hnd].
  destruct Hin as [[= -> ->]|Hin].
  - destruct (string_dec k k); [reflexivity | congruence].
  - destruct (string_dec k0 k) as [->|Hne].
    + exfalso. apply Hnot. apply in_map_iff. exists (k, v). split; auto.
    + exact (IH Hnd Hin).
Qed.

(** X10.  Under a schema of pairwise distinct names the predicted class is
    a key of the dictionary, and the probability stored under it is the
    largest probability of the dictionary. *)
Theorem predicted_class_has_top_entry
        (cfg : config) (logits : tensor) (pred : prediction) :
  finalize cfg logits = Ok pred ->
  NoDup (values (id2label cfg)) ->
  exists m,
    dict_get (output_dict pred) (predicted_class pred) = Some m
    /\ (forall k v, In (k, v) (output_dict pred) -> v <= m).
Proof.
  intros Hok Hnd.
  destruct (finalize_ok_inv _ _ _ Hok) as [p [name [_ [Harg [Hname Heq]]]]].
  pose proof (argmax_first_max p _ Harg) as [Hi [Hmax _]].
  apply getitem_nonneg_nth_error in Hname; [|lia].
  rewrite Nat2Z.id in Hname.
  assert (Hdict : output_dict pred = zip (values (id2label cfg)) p).
  { rewrite Heq. simpl. apply dict_comprehension_distinct.
    rewrite zip_keys. now apply NoDup_firstn. }
  assert (Hpc : predicted_class pred = name) by (rewrite Heq; reflexivity).
  rewrite Hdict, Hpc.
  exists (nth (class_ind pred) p 0). split.
  - apply get_of_distinct.
    + rewrite zip_keys. now apply NoDup_firstn.
    + apply zip_In_nth with (i := class_ind pred); [exact Hname|].
      now apply nth_error_nth'.
  - intros k v Hin. apply zip_In_right in Hin.
    destruct (In_nth p v 0 Hin) as [j [Hj <-]]. now apply Hmax.
Qed.

Lemma ag_news_names_distinct : NoDup (values (id2label Demo.ag_news)).
Proof.
  replace (values (id2label Demo.ag_news))
    with (nodup string_dec (values (id2label Demo.ag_news)))
    by (vm_compute; reflexivity).
  apply NoDup_nodup.
Qed.

Lemma predicted_class_has_top_entry_witness :
  exists m,
    dict_get (output_dict (Demo.flat_prediction false))
             (predicted_class (Demo.flat_prediction false)) = Some m
    /\ (forall k v,
           In (k, v) (output_dict (Demo.flat_prediction false)) -> v <= m).
Proof.
  apply (predicted_class_has_top_entry
           Demo.ag_news (row_tensor [0; 1; 0; 0] false)).
  - apply demo_finalize.
  - exact ag_news_names_distinct.
Defined.

End MoreSoftmaxFacts.

(* ===================================================================== *)
(** ** The inference loop, further *)
(* ===================================================================== *)

Section MoreLoopFacts.

Variables weights rng_state : Type.
Variable forward :
  weights -> option rng_state -> Tok.batch_encoding -> result (list (list R)).
Variable rng_advance : rng_state -> rng_state.
Variable cfg : config.
Variable tk : Tok.vocab.

Local Abbreviation World := (world weights rng_state).
Local Abbreviation Body := (body forward rng_advance cfg tk).
Local Abbreviation ForEach := (for_each forward rng_advance cfg tk).

Lemma getitem_outside {A} (l : list A) (i : Z) :
  (i < - Z.of_nat (length l) \/ Z.of_nat (length l) <= i)%Z ->
  getitem l i = Raise IndexError.
Proof.
  intros Hi. unfold getitem.
  destruct (i <? 0)%Z eqn:Hneg.
  - apply Z.ltb_lt in Hneg.
    replace (0 <=? Z.of_nat (length l) + i)%Z with false
      by (symmetry; apply Z.leb_gt; lia).
    reflexivity.
  - apply Z.ltb_ge in Hneg.
    replace (i <? Z.of_nat (length l))%Z with false
      by (symmetry; apply Z.ltb_ge; lia).
    rewrite andb_false_r. reflexivity.
Qed.

Lemma getitem_inside {A} (l : list A) (i : Z) :
  (- Z.of_nat (length l) <= i < Z.of_nat (length l))%Z ->
  exists a, getitem l i = Ok a.
Proof.
  intros Hi. unfold getitem.
  destruct (i <? 0)%Z eqn:Hneg;
    [apply Z.ltb_lt in Hneg | apply Z.ltb_ge in Hneg].
  - replace ((0 <=? Z.of_nat (length l) + i)
             && (Z.of_nat (length l) + i <? Z.of_nat (length l)))%Z%bool
      with true
      by (symmetry; apply andb_true_iff; split;
          [apply Z.leb_le | apply Z.ltb_lt]; lia).
    destruct (nth_error l (Z.to_nat (Z.of_nat (length l) + i))) as [a|] eqn:E.
    + now exists a.
    + apply nth_error_None in E. lia.
  - replace ((0 <=? i) && (i <? Z.of_nat (length l)))%Z%bool with true
      by (symmetry; apply andb_true_iff; split;
          [apply Z.leb_le | apply Z.ltb_lt]; lia).
    destruct (nth_error l (Z.to_nat i)) as [a|] eqn:E.
    + now exists a.
    + apply nth_error_None in E. lia.
Qed.

Lemma getitem_ok_inside {A} (l : list A) (i : Z) (a : A) :
  getitem l i = Ok a ->
  (- Z.of_nat (length l) <= i < Z.of_nat (length l))%Z.
Proof.
  intros Hok.
  destruct (Z_lt_ge_dec i (- Z.of_nat (length l))) as [Hlo|Hlo];
    [rewrite getitem_outside in Hok by lia; discriminate|].
  destruct (Z_lt_ge_dec i (Z.of_nat (length l))) as [Hhi|Hhi];
    [lia | rewrite getitem_outside in Hok by lia; discriminate].
Qed.

(** The statements after the [with] block, on the rows the model
    returned. *)
Lemma postprocess_rows (labs : list string) (l : list (list R)) (g : bool) :
  postprocess labs {| Torch.data := map Torch.softmax_row l;
                      Torch.requires_grad := g |}
  = match l with
    | [] => Raise IndexError
    | row :: _ =>
        (i <- Torch.argmax (Torch.softmax_row row) ;;
         name <- getitem labs (Z.of_nat i) ;;
         Ok {| out := {| Torch.data := map Torch.softmax_row l;
                         Torch.requires_grad := g |};
               class_ind := i;
               predicted_class := name;
               output_dict :=
                 dict_comprehension (zip labs (Torch.softmax_row row)) |}
        )%result
    end.
Proof.
  destruct l as [|row rest]; reflexivity.
Qed.

(** When an iteration ends normally. *)
Lemma body_ok_iff (d : example) (w : World) :
  res (Body d w) = Ok tt
  <-> Utf8.well_formed (Utf8.bytes_of (description d)) = true
      /\ (- Z.of_nat (length (id2label cfg)) <= label d
          < Z.of_nat (length (id2label cfg)))%Z
      /\ exists row rest i,
           forward (params (net w))
                   (if training (net w) then Some (rng w) else None)
                   (fst (Tok.call tk (description d) Tok.switched_off))
           = Ok (row :: rest)
           /\ Torch.argmax (Torch.softmax_row row) = Ok i
           /\ (i < length (id2label cfg))%nat.
Proof.
  rewrite body_run. cbv zeta.
  destruct (decode_cases (description d)) as [[Hwf Hdec]|[Hwf Hdec]];
    rewrite Hdec, Hwf; [|split; [discriminate | intros [H _]; discriminate]].
  destruct (getitem (values (id2label cfg)) (label d)) as [name|e] eqn:Hname.
  2:{ split; [discriminate|]. intros [_ [Hrange _]].
      rewrite <- (values_length (id2label cfg)) in Hrange.
      destruct (getitem_inside _ _ Hrange) as [a Ha]. congruence. }
  apply getitem_ok_inside in Hname. rewrite values_length in Hname.
  destruct (forward (params (net w))
                    (if training (net w) then Some (rng w) else None)
                    (fst (Tok.call tk (description d) Tok.switched_off)))
    as [l|e].
  2:{ split; [discriminate|]. intros [_ [_ [row [rest [i [H _]]]]]].
      discriminate. }
  rewrite postprocess_rows.
  destruct l as [|row rest].
  { split; [discriminate|]. intros [_ [_ [row [rest [i [H _]]]]]].
    discriminate. }
  destruct (Torch.argmax (Torch.softmax_row row)) as [i|e] eqn:Harg; simpl.
  2:{ split; [discriminate|]. intros [_ [_ [row' [rest' [i [H [Ha _]]]]]]].
      injection H as <- <-. congruence. }
  destruct (Nat.lt_ge_cases i (length (id2label cfg))) as [Hi|Hi].
  - destruct (getitem_in_range (values (id2label cfg)) i) as [nm [Hget _]].
    { now rewrite values_length. }
    rewrite Hget. simpl. split; [|reflexivity].
    intros _. repeat split; try assumption; try lia.
    exists row, rest, i. repeat split; assumption.
  - rewrite getitem_past_end by (now rewrite values_length). simpl.
    split; [discriminate|].
    intros [_ [_ [row' [rest' [i' [H [Ha Hi']]]]]]].
    injection H as <- <-. rewrite Harg in Ha. injection Ha as <-. lia.
Qed.

(** What the report of an iteration that ends normally holds. *)
Lemma body_report (d : example) (w : World) (u : unit) :
  res (Body d w) = Ok u ->
  exists r,
    printed (Body d w) = [r]
    /\ article r = description d
    /\ getitem (values (id2label cfg)) (label d) = Ok (actual r)
    /\ Utf8.well_formed (Utf8.bytes_of (description d)) = true.
Proof.
  rewrite body_run. cbv zeta.
  destruct (decode_cases (description d)) as [[Hwf Hdec]|[Hwf Hdec]];
    rewrite Hdec; [|discriminate].
  destruct (getitem (values (id2label cfg)) (label d)) as [name|e];
    [|discriminate].
  destruct (forward _ _ _) as [l|e]; [|discriminate].
  destruct (postprocess _ _) as [p|e]; [|discriminate].
  intros _. eexists. repeat split. exact Hwf.
Qed.

(** In evaluation mode, on a tokenizer whose backend is switched off, an
    iteration leaves the interpreter as it found it. *)
Lemma body_frame (d : example) (w : World) :
  training (net w) = false ->
  tok_backend w = Tok.switched_off ->
  final (Body d w) = w.
Proof.
  intros Heval Hb. rewrite body_run. cbv zeta. rewrite Heval.
  assert (Hw : with_backend Tok.switched_off w = w).
  { destruct w as [b g r n]. simpl in Hb. subst b. reflexivity. }
  rewrite Hw.
  repeat match goal with
         | |- context [match ?r with Ok _ => _ | Raise _ => _ end] =>
             destruct r; simpl
         end; reflexivity.
Qed.

(** X11.  An iteration whose record cannot be used raises before the
    tokenizer and the model are called: UnicodeDecodeError for a
    description that is not well-formed UTF-8 (whatever its label),
    IndexError for a label outside [-C, C - 1].  Nothing is printed and
    the interpreter is left exactly as it was, whatever the model would
    have answered. *)
Theorem unusable_record_raises_early (d : example) (w : World) :
  (Utf8.well_formed (Utf8.bytes_of (description d)) = false ->
   Body d w = {| res := Raise UnicodeDecodeError; printed := []; final := w |})
  /\ (Utf8.well_formed (Utf8.bytes_of (description d)) = true ->
      (label d < - Z.of_nat (length (id2label cfg))
       \/ Z.of_nat (length (id2label cfg)) <= label d)%Z ->
      Body d w = {| res := Raise IndexError; printed := []; final := w |}).
Proof.
  rewrite body_run. cbv zeta.
  destruct (decode_cases (description d)) as [[Hwf Hdec]|[Hwf Hdec]];
    rewrite Hdec, Hwf; split; try discriminate; try reflexivity.
  intros _ Hlabel.
  rewrite getitem_outside by (rewrite values_length; exact Hlabel).
  reflexivity.
Qed.

(** X12.  An iteration ends normally exactly when the description is
    well-formed UTF-8, the label lies in [-C, C - 1], and the model
    returns at least one row whose first row is not empty and whose
    probabilities have their arg-max at a position below C. *)
Theorem body_succeeds_exactly_when (d : example) (w : World) :
  res (Body d w) = Ok tt
  <-> Utf8.well_formed (Utf8.bytes_of (description d)) = true
      /\ (- Z.of_nat (length (id2label cfg)) <= label d
          < Z.of_nat (length (id2label cfg)))%Z
      /\ exists row rest i,
           forward (params (net w))
                   (if training (net w) then Some (rng w) else None)
                   (fst (Tok.call tk (description d) Tok.switched_off))
           = Ok (row :: rest)
           /\ Torch.argmax (Torch.softmax_row row) = Ok i
           /\ (i < length (id2label cfg))%nat.
Proof.
  split.
  - intros Hok. now apply body_ok_iff.
  - intros Hcond. now apply body_ok_iff.
Qed.

(** X13.  When the model answers every tokenized article with one row of C
    logits, C at least 1, the loop over records with well-formed
    descriptions and labels in [-C, C - 1] never raises and prints one
    report per record. *)
Theorem loop_total_under_model_contract
        (ex_input : list example) (w : World) :
  (1 <= length (id2label cfg))%nat ->
  (forall noise art,
      exists row,
        forward (params (net w)) noise (fst (Tok.call tk art Tok.switched_off))
        = Ok [row]
        /\ length row = length (id2label cfg)) ->
  Forall (fun d =>
            Utf8.well_formed (Utf8.bytes_of (description d)) = true
            /\ (- Z.of_nat (length (id2label cfg)) <= label d
                < Z.of_nat (length (id2label cfg)))%Z) ex_input ->
  res (ForEach ex_input w) = Ok tt
  /\ length (printed (ForEach ex_input w)) = length ex_input.
Proof.
  intros HC Hmodel Hrecords.
  assert (Hres : res (ForEach ex_input w) = Ok tt).
  { revert w Hmodel. induction Hrecords as [|d rest [Hwf Hlabel] _ IH];
      intros w Hmodel; [reflexivity|].
    rewrite for_each_cons.
    assert (Hd : res (Body d w) = Ok tt).
    { apply body_ok_iff. repeat split; try assumption; try lia.
      destruct (Hmodel (if training (net w) then Some (rng w) else None)
                       (description d)) as [row [Hfwd Hlen]].
      destruct (argmax_nonempty (Torch.softmax_row row)) as [i [Harg Hi]].
      { intros Hnil. apply (f_equal (@length R)) in Hnil.
        rewrite softmax_row_length in Hnil. simpl in Hnil. lia. }
      rewrite softmax_row_length in Hi.
      exists row, [], i. repeat split; try assumption. lia. }
    rewrite Hd. cbv zeta. cbn [res].
    apply IH. rewrite body_keeps_net. exact Hmodel. }
  split; [exact Hres|].
  exact (for_each_ok_reports _ _ forward rng_advance cfg tk ex_input w tt Hres).
Qed.

Lemma for_each_reports (ex_input : list example) :
  forall w : World,
    let out := printed (ForEach ex_input w) in
    (length out <= length ex_input)%nat
    /\ Forall2 (fun r d =>
                 article r = description d
                 /\ getitem (values (id2label cfg)) (label d) = Ok (actual r)
                 /\ Utf8.well_formed (Utf8.bytes_of (description d)) = true)
              out (firstn (length out) ex_input).
Proof.
  induction ex_input as [|d rest IH]; intros w; cbv zeta.
  - split; [simpl; lia | constructor].
  - rewrite for_each_cons.
    destruct (res (Body d w)) as [u|e] eqn:Hd; cbv zeta; cbn [printed].
    + destruct (body_report d w u Hd) as [r [Hpr [Hart [Hact Hwf]]]].
      rewrite Hpr. destruct (IH (final (Body d w))) as [Hlen Hall].
      simpl. split; [lia|]. constructor; [repeat split; assumption|].
      exact Hall.
    + rewrite (body_raise_silent _ _ forward rng_advance cfg tk d w e Hd).
      split; [simpl; lia | constructor].
Qed.

(** X14.  The reports come out in the order of the records, one per record
    from the first on, with no record skipped or reported twice: report
    number k carries the description of record number k as its article
    and the schema name at the position of that record's label as its
    actual class. *)
Theorem reports_follow_records (ex_input : list example) (w : World) :
  let out := printed (ForEach ex_input w) in
  (length out <= length ex_input)%nat
  /\ Forall2 (fun r d =>
               article r = description d
               /\ getitem (values (id2label cfg)) (label d) = Ok (actual r))
            out (firstn (length out) ex_input).
Proof.
  cbv zeta. destruct (for_each_reports ex_input w) as [Hlen Hall].
  split; [exact Hlen|].
  eapply Forall2_impl; [|exact Hall].
  intros r d [Hart [Hact _]]. split; assumption.
Qed.

Lemma for_each_alone (ex_input : list example) :
  forall w : World,
    training (net w) = false ->
    (res (ForEach ex_input w) = Ok tt
     <-> Forall (fun d => res (Body d w) = Ok tt) ex_input)
    /\ (res (ForEach ex_input w) = Ok tt ->
        printed (ForEach ex_input w)
        = flat_map (fun d => printed (Body d w)) ex_input).
Proof.
  induction ex_input as [|d rest IH]; intros w Heval.
  - split; [split; [constructor | reflexivity] | reflexivity].
  - rewrite for_each_cons.
    destruct (res (Body d w)) as [[]|e] eqn:Hd; cbv zeta; cbn [res printed].
    + assert (Hnet : net (final (Body d w)) = net w) by apply body_keeps_net.
      destruct (for_each_reads_net_only
                  _ _ forward rng_advance cfg tk rest (final (Body d w)) w)
        as [Hres Hpr]; [exact Hnet | now rewrite Hnet|].
      rewrite Hres, Hpr. destruct (IH w Heval) as [Hiff Hflat].
      split.
      * rewrite Hiff. split.
        -- intros Hall. constructor; assumption.
        -- intros Hall. now inversion Hall.
      * intros Hok. simpl. now rewrite (Hflat Hok).
    + split; [split|]; try discriminate.
      intros Hall. inversion Hall as [|? ? Hd' _]. congruence.
Qed.

(** X15.  In evaluation mode no record influences another: the loop ends
    normally exactly when every record, taken alone on the initial
    interpreter, does, and it then prints the reports the records give
    alone, one after the other. *)
Theorem records_are_independent (ex_input : list example) (w : World) :
  training (net w) = false ->
  (res (ForEach ex_input w) = Ok tt
   <-> Forall (fun d => res (Body d w) = Ok tt) ex_input)
  /\ (res (ForEach ex_input w) = Ok tt ->
      printed (ForEach ex_input w)
      = flat_map (fun d => printed (Body d w)) ex_input).
Proof.
  intros Heval. destruct (for_each_alone ex_input w Heval) as [Hiff Hflat].
  split; assumption.
Qed.

(** X16.  In evaluation mode a slice can be processed in two runs: when
    the loop over the first part ends normally, the loop over both parts
    ends as the loop over the second part does, and prints the reports of
    the first run followed by those of the second. *)
Theorem slice_can_be_split (first second : list example) (w : World)
        (u : unit) :
  training (net w) = false ->
  res (ForEach first w) = Ok u ->
  res (ForEach (first ++ second) w) = res (ForEach second w)
  /\ printed (ForEach (first ++ second) w)
     = printed (ForEach first w) ++ printed (ForEach second w).
Proof.
  intros Heval Hfirst. rewrite for_each_app, Hfirst. cbv zeta. cbn [res printed].
  pose proof (for_each_keeps_net _ _ forward rng_advance cfg tk first w) as Hnet.
  destruct (for_each_reads_net_only
              _ _ forward rng_advance cfg tk second
              (final (ForEach first w)) w) as [Hres Hpr];
    [exact Hnet | now rewrite Hnet|].
  rewrite Hres, Hpr. split; reflexivity.
Qed.

(** X17.  In evaluation mode, on a tokenizer whose backend has truncation
    and padding switched off, the loop leaves the whole interpreter state
    as it found it (tokenizer backend, gradient mode, random generator,
    module), whether it ends normally or raises. *)
Theorem loop_leaves_interpreter_unchanged
        (ex_input : list example) (w : World) :
  training (net w) = false ->
  tok_backend w = Tok.switched_off ->
  final (ForEach ex_input w) = w.
Proof.
  intros Heval Hb. induction ex_input as [|d rest IH]; [reflexivity|].
  rewrite for_each_cons, (body_frame d w Heval Hb).
  destruct (res (Body d w)); cbv zeta; cbn [final]; [exact IH | reflexivity].
Qed.

(** X18.  When the inference loop ends normally on a list of records,
    the cell that shows these records ends normally too, and the lines it
    prints are the article of each report, each followed by an empty
    line. *)
Theorem shown_texts_are_report_articles
        (ex_input : list example) (w : World) (u : unit) :
  res (ForEach ex_input w) = Ok u ->
  Loader.show ex_input
  = (flat_map (fun r => [article r; EmptyString])
              (printed (ForEach ex_input w)), Ok tt).
Proof.
  intros Hok.
  pose proof (for_each_ok_reports _ _ forward rng_advance cfg tk
                                  ex_input w u Hok) as Hlen.
  destruct (for_each_reports ex_input w) as [_ Hall]. cbv zeta in Hall.
  rewrite Hlen, firstn_all in Hall. clear Hlen Hok.
  induction Hall as [|r d out rest [Hart [_ Hwf]] _ IH].
  - reflexivity.
  - simpl. unfold Utf8.decode. rewrite Hwf, IH, Hart. reflexivity.
Qed.

End MoreLoopFacts.

(* ===================================================================== *)
(** ** The further facts on the concrete objects *)
(* ===================================================================== *)

Section MoreRuns.

Import Torch.
Local Open Scope R_scope.

Local Abbreviation DemoBody :=
  (body Demo.flat_forward (fun r : unit => r) Demo.ag_news Demo.unk_vocab).

Lemma unusable_record_raises_early_witness :
  DemoBody Samples.garbled Samples.training_start
  = {| res := Raise UnicodeDecodeError; printed := [];
       final := Samples.training_start |}
  /\ DemoBody Demo.mislabelled Samples.training_start
     = {| res := Raise IndexError; printed := [];
          final := Samples.training_start |}.
Proof.
  split.
  - apply (unusable_record_raises_early
             unit unit Demo.flat_forward (fun r => r) Demo.ag_news
             Demo.unk_vocab Samples.garbled Samples.training_start).
    vm_compute. reflexivity.
  - apply (unusable_record_raises_early
             unit unit Demo.flat_forward (fun r => r) Demo.ag_news
             Demo.unk_vocab Demo.mislabelled Samples.training_start).
    + vm_compute. reflexivity.
    + simpl. lia.
Defined.

Lemma body_succeeds_exactly_when_witness :
  Utf8.well_formed (Utf8.bytes_of (description Demo.sports)) = true
  /\ (- Z.of_nat (length (id2label Demo.ag_news)) <= label Demo.sports
      < Z.of_nat (length (id2label Demo.ag_news)))%Z
  /\ exists row rest i,
       Demo.flat_forward
         (params (net Demo.start))
         (if training (net Demo.start) then Some (rng Demo.start) else None)
         (fst (Tok.call Demo.unk_vocab (description Demo.sports)
                        Tok.switched_off))
       = Ok (row :: rest)
       /\ argmax (softmax_row row) = Ok i
       /\ (i < length (id2label Demo.ag_news))%nat.
Proof.
  apply (proj1 (body_succeeds_exactly_when
                  unit unit Demo.flat_forward (fun r => r) Demo.ag_news
                  Demo.unk_vocab Demo.sports Demo.start)).
  rewrite demo_body_sports by reflexivity. reflexivity.
Defined.

Lemma loop_total_under_model_contract_witness :
  res (Demo.run [Demo.sports; Demo.wire]) = Ok tt
  /\ length (printed (Demo.run [Demo.sports; Demo.wire]))
     = length [Demo.sports; Demo.wire].
Proof.
  apply (loop_total_under_model_contract
           unit unit Demo.flat_forward (fun r => r) Demo.ag_news
           Demo.unk_vocab [Demo.sports; Demo.wire] Demo.start).
  - simpl. lia.
  - intros noise art. exists [0; 1; 0; 0]. split; reflexivity.
  - repeat constructor; try (vm_compute; reflexivity); simpl; lia.
Defined.

Lemma records_are_independent_witness :
  (res (Demo.run [Demo.sports]) = Ok tt
   <-> Forall (fun d => res (DemoBody d Demo.start) = Ok tt) [Demo.sports])
  /\ (res (Demo.run [Demo.sports]) = Ok tt ->
      printed (Demo.run [Demo.sports])
      = flat_map (fun d => printed (DemoBody d Demo.start)) [Demo.sports]).
Proof.
  apply (records_are_independent
           unit unit Demo.flat_forward (fun r => r) Demo.ag_news
           Demo.unk_vocab [Demo.sports] Demo.start).
  reflexivity.
Defined.

Lemma slice_can_be_split_witness :
  res (Demo.run ([Demo.sports] ++ [Demo.mislabelled]))
  = res (Demo.run [Demo.mislabelled])
  /\ printed (Demo.run ([Demo.sports] ++ [Demo.mislabelled]))
     = printed (Demo.run [Demo.sports])
       ++ printed (Demo.run [Demo.mislabelled]).
Proof.
  apply (slice_can_be_split
           unit unit Demo.flat_forward (fun r => r) Demo.ag_news
           Demo.unk_vocab [Demo.sports] [Demo.mislabelled] Demo.start tt).
  - reflexivity.
  - change (res (Demo.run [Demo.sports]) = Ok tt).
    rewrite demo_run_sports. reflexivity.
Defined.

Lemma loop_leaves_interpreter_unchanged_witness :
  final (Demo.run [Demo.sports; Demo.mislabelled]) = Demo.start.
Proof.
  apply (loop_leaves_interpreter_unchanged
           unit unit Demo.flat_forward (fun r => r) Demo.ag_news
           Demo.unk_vocab [Demo.sports; Demo.mislabelled] Demo.start);
    reflexivity.
Defined.

Lemma shown_texts_are_report_articles_witness :
  Loader.show [Demo.sports]
  = (flat_map (fun r => [article r; EmptyString])
              (printed (Demo.run [Demo.sports])), Ok tt).
Proof.
  apply (shown_texts_are_report_articles
           unit unit Demo.flat_forward (fun r => r) Demo.ag_news
           Demo.unk_vocab [Demo.sports] Demo.start tt).
  change (res (Demo.run [Demo.sports]) = Ok tt).
  rewrite demo_run_sports. reflexivity.
Defined.

End MoreRuns.

(* ===================================================================== *)
(** ** From the train split to the printed dictionary *)
(* ===================================================================== *)

Section EndToEnd.

Import Torch.
Local Open Scope R_scope.

Variables weights rng_state : Type.
Variable forward :
  weights -> option rng_state -> Tok.batch_encoding -> result (list (list R)).
Variable rng_advance : rng_state -> rng_state.
Variable cfg : config.
Variable tk : Tok.vocab.

Local Abbreviation World := (world weights rng_state).
Local Abbreviation ForEach := (for_each forward rng_advance cfg tk).

Lemma Forall2_In_right {A B} (P : A -> B -> Prop) (xs : list A) (ys : list B) :
  Forall2 P xs ys -> Forall (fun x => exists y, In y ys /\ P x y) xs.
Proof.
  induction 1 as [|x y xs ys Hxy _ IH]; constructor.
  - exists y. split; [now left | exact Hxy].
  - eapply Forall_impl; [|exact IH].
    intros a [b [Hin Hab]]. exists b. split; [now right | exact Hab].
Qed.

Lemma In_of_firstn {A} (n : nat) (l : list A) (x : A) :
  In x (firstn n l) -> In x l.
Proof.
  intros Hin. rewrite <- (firstn_skipn n l). apply in_or_app. now left.
Qed.

Lemma In_of_skipn {A} (n : nat) (l : list A) (x : A) :
  In x (skipn n l) -> In x l.
Proof.
  intros Hin. rewrite <- (firstn_skipn n l). apply in_or_app. now right.
Qed.

(** X19.  Whatever the size of the train split, the notebook prints at most
    five reports, and the article of each is the description of one of
    the first 25 records of the split. *)
Theorem notebook_reports_at_most_five (train : list example) (w : World) :
  let out := printed (ForEach (Loader.ex_input train) w) in
  (length out <= 5)%nat
  /\ Forall (fun r => exists d,
                 In d (firstn 25 train) /\ article r = description d) out.
Proof.
  cbv zeta.
  destruct (for_each_reports _ _ forward rng_advance cfg tk
                             (Loader.ex_input train) w) as [Hlen Hall].
  cbv zeta in Hall. split.
  - assert (Hfive : (length (Loader.ex_input train) <= 5)%nat)
      by (rewrite ex_input_skipn, length_skipn, length_firstn; lia).
    lia.
  - apply Forall2_In_right in Hall.
    eapply Forall_impl; [|exact Hall].
    intros r [d [Hin [Hart _]]]. exists d. split; [|exact Hart].
    apply In_of_firstn in Hin. rewrite ex_input_skipn in Hin.
    now apply In_of_skipn in Hin.
Qed.

Lemma zip_same_length {A B} (xs : list A) (ys : list B) :
  length xs = length ys ->
  map fst (zip xs ys) = xs /\ map snd (zip xs ys) = ys.
Proof.
  revert ys. induction xs as [|x xs IH]; intros [|y ys] Hlen; simpl in *;
    try discriminate; [split; reflexivity|].
  destruct (IH ys) as [Hf Hs]; [lia|]. now rewrite Hf, Hs.
Qed.

(** X20.  Under a schema of pairwise distinct names, for a logits vector
    of C entries, the dictionary lists every class name once, in schema
    order, and the values of the dictionary, in that order, are the
    probability row of the prediction: each class has the probability at
    its own position. *)
Theorem dictionary_lists_every_class
        (c : config) (L : list R) (g : bool) (pred : prediction) :
  finalize c (row_tensor L g) = Ok pred ->
  NoDup (values (id2label c)) ->
  length L = length (id2label c) ->
  keys (output_dict pred) = values (id2label c)
  /\ data (out pred) = [map snd (output_dict pred)]
  /\ length (output_dict pred) = length (id2label c).
Proof.
  intros Hok Hnd Hlen.
  destruct (finalize_ok_inv _ _ _ Hok) as [p [name [Hrow [_ [_ Heq]]]]].
  rewrite softmax_row_tensor in Hrow, Heq. injection Hrow as <-.
  destruct (zip_same_length (values (id2label c)) (softmax_row L))
    as [Hfst Hsnd].
  { rewrite values_length, softmax_row_length. now symmetry. }
  rewrite Heq. cbn [output_dict out data row_tensor].
  rewrite dict_comprehension_distinct by (rewrite Hfst; exact Hnd).
  unfold keys. rewrite Hfst, Hsnd. repeat split.
  rewrite zip_length, values_length, softmax_row_length. lia.
Qed.

End EndToEnd.

Lemma dictionary_lists_every_class_witness :
  keys (output_dict (Demo.flat_prediction false))
  = values (id2label Demo.ag_news)
  /\ Torch.data (out (Demo.flat_prediction false))
     = [map snd (output_dict (Demo.flat_prediction false))]
  /\ length (output_dict (Demo.flat_prediction false))
     = length (id2label Demo.ag_news).
Proof.
  apply (dictionary_lists_every_class
           Demo.ag_news [0; 1; 0; 0]%R false (Demo.flat_prediction false)).
  - apply demo_finalize.
  - exact ag_news_names_distinct.
  - reflexivity.
Defined.
